(** * dragontoothmg: the pseudo-legal move generator (movegen.go)

    A shallow embedding of [movegen.go] and the properties of its
    generators and of its attack oracle.

    Layout:
    - 64-bit and 8-bit unsigned arithmetic as [Z] with the wrap-around
      written out, and the bit-scan loop every generator is built on;
    - the board, the move value and the lookup tables;
    - a small monad for Go methods on [*Board]: they read the board, two of
      its fields are stored to by the king generator, an array index out of
      range panics, and every store is recorded;
    - the generators and the attack oracle, one definition per Go function;
    - lookup tables built from the rules of movement, and the positions used
      in concrete runs;
    - the invariants of the data model and the definitions the statements
      are written with;
    - lemmas on words, scans and runs, and the theorems. *)

From Stdlib Require Import ZArith List Bool Lia FMapPositive.
Import ListNotations.
Local Open Scope Z_scope.

(* ------------------------------------------------------------------ *)
(** ** Machine integers *)

Module Word.

(** [uint64] and [uint8] results are reduced modulo the word size. *)
Definition wrap64 (x : Z) : Z := x mod 2 ^ 64.
Definition wrap8 (x : Z) : Z := x mod 2 ^ 8.

Definition max64 : Z := Z.ones 64.

(** [x << k] and [x >> k] on [uint64]; Go gives 0 once [k] reaches 64,
    which is what the reduction and [Z.shiftr] give on 64-bit values. *)
Definition shl64 (x k : Z) : Z := wrap64 (Z.shiftl x k).
Definition shr64 (x k : Z) : Z := Z.shiftr x k.

(** [^x] on [uint64]. *)
Definition not64 (x : Z) : Z := Z.land (Z.lnot x) max64.

(** [x * y] on [uint64]. *)
Definition mul64 (x y : Z) : Z := wrap64 (x * y).

Definition is64 (x : Z) : Prop := 0 <= x < 2 ^ 64.

Fixpoint lowBit (p : positive) : Z :=
  match p with
  | xO q => Z.succ (lowBit q)
  | _ => 0
  end.

(** [bits.TrailingZeros64]: the index of the lowest set bit, 64 for 0. *)
Definition TrailingZeros64 (x : Z) : Z :=
  match x with
  | Zpos p => lowBit p
  | _ => 64
  end.

(** [x & (x - 1)]: unset the lowest active bit (only used on [x <> 0]). *)
Definition clearLowest (x : Z) : Z := Z.land x (x - 1).

(** The squares of a bitboard in the order the scan loops visit them. *)
Fixpoint bitScan (fuel : nat) (x : Z) : list Z :=
  match fuel with
  | O => []
  | S f => if x =? 0 then []
           else TrailingZeros64 x :: bitScan f (clearLowest x)
  end.

(** [lo, lo+1, ..., lo+n-1]. *)
Fixpoint upFrom (lo : Z) (n : nat) : list Z :=
  match n with
  | O => []
  | S k => lo :: upFrom (lo + 1) k
  end.

End Word.
Import Word.

(* ------------------------------------------------------------------ *)
(** ** Data model *)

(** The per-side bitboard set. *)
Record bitboards : Type := mkBitboards {
  pawns : Z;
  bishops : Z;
  knights : Z;
  rooks : Z;
  queens : Z;
  kings : Z;
  all : Z
}.

(** Modelled from the spec: the [Board] type is declared outside
    [movegen.go]; it has the two per-side bitboard sets, the side to move,
    the en-passant square (an 8-bit value, 0 when absent) and four
    independent castling-rights booleans. *)
Record Board : Type := mkBoard {
  white : bitboards;
  black : bitboards;
  wtomove : bool;
  enpassant : Z;
  castleWK : bool;
  castleWQ : bool;
  castleBK : bool;
  castleBQ : bool
}.

Definition whiteCanCastleKingside (b : Board) : bool := castleWK b.
Definition whiteCanCastleQueenside (b : Board) : bool := castleWQ b.
Definition blackCanCastleKingside (b : Board) : bool := castleBK b.
Definition blackCanCastleQueenside (b : Board) : bool := castleBQ b.

(** Modelled from the spec: the piece kinds are declared outside
    [movegen.go]; the promotion loop walks them from [Knight] up to [Queen],
    so they are consecutive numbers in the order knight, bishop, rook,
    queen, with [Nothing] the zero value of a fresh move. *)
Definition Piece : Type := Z.
Definition Nothing : Piece := 0.
Definition Pawn : Piece := 1.
Definition Knight : Piece := 2.
Definition Bishop : Piece := 3.
Definition Rook : Piece := 4.
Definition Queen : Piece := 5.
Definition King : Piece := 6.

(** Modelled from the spec: [Square] is declared outside [movegen.go]; the
    source converts [uint8] and [int] values to it, and it is taken as an
    8-bit unsigned value. *)
Definition Square (x : Z) : Z := wrap8 x.

(** Modelled from the spec: the [Move] value holds an origin square, a
    destination square and an optional promotion piece; the setters return
    the modified value, and a fresh move ([var move Move]) has all three
    fields zero. *)
Record Move : Type := mkMove {
  mfrom : Z;
  mto : Z;
  mpromote : Piece
}.

Definition zeroMove : Move := mkMove 0 0 Nothing.
Definition Setfrom (m : Move) (s : Z) : Move := mkMove s (mto m) (mpromote m).
Definition Setto (m : Move) (s : Z) : Move := mkMove (mfrom m) s (mpromote m).
Definition Setpromote (m : Move) (p : Piece) : Move := mkMove (mfrom m) (mto m) p.

(** The lookup tables, declared outside [movegen.go]: per-square arrays for
    the knight and king masks and, for each sliding family, the blocker
    masks, the magic multipliers, the shift amounts and the move tables. *)
Record Tables : Type := mkTables {
  knightMasks : list Z;
  kingMasks : list Z;
  magicRookBlockerMasks : list Z;
  magicNumberRook : list Z;
  magicRookShifts : list Z;
  magicMovesRook : list (list Z);
  magicBishopBlockerMasks : list Z;
  magicNumberBishop : list Z;
  magicBishopShifts : list Z;
  magicMovesBishop : list (list Z)
}.

(* ------------------------------------------------------------------ *)
(** ** The monad of board methods *)

(** A store into the board.  Only the king generator stores, and only into
    the [kings] and [all] fields of one side. *)
Inductive Store : Type :=
| StoreKings (whiteSide : bool) (v : Z)
| StoreAll (whiteSide : bool) (v : Z).

(** A run either returns a value with the board it leaves behind and the
    stores it performed, or panics (array index out of range), or exhausts
    the iteration bound of a scan loop. *)
Inductive Outcome (A : Type) : Type :=
| Done (a : A) (b : Board) (w : list Store)
| Panic
| Timeout.
Arguments Done {A} a b w.
Arguments Panic {A}.
Arguments Timeout {A}.

Definition M (A : Type) : Type := Board -> Outcome A.

Definition ret {A} (a : A) : M A := fun b => Done a b [].

Definition bind {A B} (c : M A) (k : A -> M B) : M B :=
  fun b =>
    match c b with
    | Done a b1 w1 =>
        match k a b1 with
        | Done r b2 w2 => Done r b2 (w1 ++ w2)
        | Panic => Panic
        | Timeout => Timeout
        end
    | Panic => Panic
    | Timeout => Timeout
    end.

Declare Scope go_scope.
Delimit Scope go_scope with go.
Notation "x <- c ;; k" := (bind c (fun x => k))
  (at level 61, c at next level, right associativity) : go_scope.
Notation "c ;;; k" := (bind c (fun _ => k))
  (at level 61, right associativity) : go_scope.
Local Open Scope go_scope.

Definition getBoard : M Board := fun b => Done b b [].

Definition sideOf (whiteSide : bool) (b : Board) : bitboards :=
  if whiteSide then white b else black b.

Definition withSide (whiteSide : bool) (s : bitboards) (b : Board) : Board :=
  if whiteSide
  then mkBoard s (black b) (wtomove b) (enpassant b)
               (castleWK b) (castleWQ b) (castleBK b) (castleBQ b)
  else mkBoard (white b) s (wtomove b) (enpassant b)
               (castleWK b) (castleWQ b) (castleBK b) (castleBQ b).

Definition setKings (s : bitboards) (v : Z) : bitboards :=
  mkBitboards (pawns s) (bishops s) (knights s) (rooks s) (queens s) v (all s).

Definition setAll (s : bitboards) (v : Z) : bitboards :=
  mkBitboards (pawns s) (bishops s) (knights s) (rooks s) (queens s) (kings s) v.

(** Loads and stores through a [*bitboards] pointer into the board. *)
Definition loadSide (whiteSide : bool) : M bitboards :=
  fun b => Done (sideOf whiteSide b) b [].

Definition storeKings (whiteSide : bool) (v : Z) : M unit :=
  fun b => Done tt (withSide whiteSide (setKings (sideOf whiteSide b) v) b)
                [StoreKings whiteSide v].

Definition storeAll (whiteSide : bool) (v : Z) : M unit :=
  fun b => Done tt (withSide whiteSide (setAll (sideOf whiteSide b) v) b)
                [StoreAll whiteSide v].

(** [tbl[i]]: panics outside the array. *)
Definition index {A} (tbl : list A) (i : Z) : M A :=
  fun b =>
    if i <? 0 then Panic
    else match nth_error tbl (Z.to_nat i) with
         | Some v => Done v b []
         | None => Panic
         end.

(** [for x != 0 { t := bits.TrailingZeros64(x); x &= x - 1; body }] with the
    loop-carried value [s]; 64 rounds clear any 64-bit word. *)
Fixpoint forBits {S : Type} (fuel : nat) (x : Z) (body : Z -> S -> M S) (s : S)
  : M S :=
  match fuel with
  | O => if x =? 0 then ret s else (fun _ => Timeout)
  | Datatypes.S f =>
      if x =? 0 then ret s
      else
        let target := TrailingZeros64 x in
        let x' := clearLowest x in
        s' <- body target s ;;
        forBits f x' body s'
  end.

Definition scanFuel : nat := 64.

(* ------------------------------------------------------------------ *)
(** ** The generators and the attack oracle *)

Section Generators.

Variable T : Tables.

(** Helper: converts a targets bitboard into moves, and adds them to the
    list. *)
Definition genMovesFromTargets (moveList : list Move) (origin : Z)
           (targets : Z) : M (list Move) :=
  forBits scanFuel targets
    (fun target ml =>
       let move := Setto (Setfrom zeroMove origin) (Square target) in
       ret (ml ++ [move]))
    moveList.

(** [for i := Piece(Knight); i <= Queen; i++ { move.Setpromote(i);
    *moveList = append( *moveList, move) }]: the move is updated in place
    and appended once per piece. *)
Definition promoteLoop (move : Move) (moveList : list Move) : list Move :=
  snd (fold_left
         (fun (st : Move * list Move) (i : Piece) =>
            let move' := Setpromote (fst st) i in
            (move', snd st ++ [move']))
         (upFrom Knight (Z.to_nat (Queen - Knight + 1)))
         (move, moveList)).

Definition pawnPushBitboards : M (Z * Z) :=
  b <- getBoard ;;
  let free := Z.land (not64 (all (white b))) (not64 (all (black b))) in
  if wtomove b then
    let targets := Z.land (shl64 (pawns (white b)) 8) free in
    let fourthFile := 0xFF000000 in
    let doubleTargets := Z.land (Z.land (shl64 targets 8) fourthFile) free in
    ret (targets, doubleTargets)
  else
    let targets := Z.land (shr64 (pawns (black b)) 8) free in
    let fifthFile := 0xFF00000000 in
    let doubleTargets := Z.land (Z.land (shr64 targets 8) fifthFile) free in
    ret (targets, doubleTargets).

Definition pawnPushes (moveList : list Move) : M (list Move) :=
  tt <- pawnPushBitboards ;;
  let '(targets, doubleTargets) := tt in
  b <- getBoard ;;
  let oneRankBack := if wtomove b then - 8 else 8 in
  (* push all pawns by one square *)
  moveList <- forBits scanFuel targets
    (fun target ml =>
       let canPromote :=
         if wtomove b then 56 <=? target else target <=? 7 in
       let move :=
         Setto (Setfrom zeroMove (Square (target + oneRankBack)))
               (Square target) in
       if canPromote then ret (promoteLoop move ml)
       else ret (ml ++ [move]))
    moveList ;;
  (* push some pawns by two squares *)
  forBits scanFuel doubleTargets
    (fun doubleTarget ml =>
       let move :=
         Setto (Setfrom zeroMove (Square (doubleTarget + 2 * oneRankBack)))
               (Square doubleTarget) in
       ret (ml ++ [move]))
    moveList.

Definition pawnCaptureBitboards : M (Z * Z) :=
  b <- getBoard ;;
  let notHFile := 0x7F7F7F7F7F7F7F7F in
  let notAFile := 0xFEFEFEFEFEFEFEFE in
  let targets :=
    if 0 <? enpassant b (* an en-passant target is active *)
    then shl64 1 (enpassant b) else 0 in
  if wtomove b then
    let targets := Z.lor targets (all (black b)) in
    let ourpawns := pawns (white b) in
    let east := Z.land (Z.land (shl64 ourpawns 9) notAFile) targets in
    let west := Z.land (Z.land (shl64 ourpawns 7) notHFile) targets in
    ret (east, west)
  else
    let targets := Z.lor targets (all (white b)) in
    let ourpawns := pawns (black b) in
    let east := Z.land (Z.land (shr64 ourpawns 7) notAFile) targets in
    let west := Z.land (Z.land (shr64 ourpawns 9) notHFile) targets in
    ret (east, west).

(** The body of [for dir, board := range bitboards]. *)
Definition pawnCapturesDir (dir : Z) (board : Z) (moveList : list Move)
  : M (list Move) :=
  b <- getBoard ;;
  forBits scanFuel board
    (fun target ml =>
       let move := Setto zeroMove (Square target) in
       let move :=
         if wtomove b
         then Setfrom move (Square (target - (9 - dir * 2)))
         else Setfrom move (Square (target + (9 - dir * 2))) in
       let canPromote :=
         if wtomove b then 56 <=? target else target <=? 7 in
       if canPromote then ret (promoteLoop move ml)
       else ret (ml ++ [move]))
    moveList.

Definition pawnCaptures (moveList : list Move) : M (list Move) :=
  ew <- pawnCaptureBitboards ;;
  let '(east, west) := ew in
  b <- getBoard ;;
  let bitboards0 := if negb (wtomove b) then west else east in
  let bitboards1 := if negb (wtomove b) then east else west in
  moveList <- pawnCapturesDir 0 bitboards0 moveList ;;
  pawnCapturesDir 1 bitboards1 moveList.

Definition knightMoves (moveList : list Move) : M (list Move) :=
  b <- getBoard ;;
  let ourKnights :=
    if wtomove b then knights (white b) else knights (black b) in
  let noFriendlyPieces :=
    if wtomove b then not64 (all (white b)) else not64 (all (black b)) in
  forBits scanFuel ourKnights
    (fun currentKnight ml =>
       mask <- index (knightMasks T) currentKnight ;;
       let targets := Z.land mask noFriendlyPieces in
       genMovesFromTargets ml (Square currentKnight) targets)
    moveList.

(** [magicMoves[sq][(blockers * magicNumber[sq]) >> magicShifts[sq]]] with
    [blockers = magicBlockerMasks[sq] & allPieces]; the four arrays are
    indexed in the order the source reads them. *)
Definition magicLookup (masks numbers shifts : list Z)
           (moves : list (list Z)) (sq : Z) (allPieces : Z) : M Z :=
  mask <- index masks sq ;;
  let blockers := Z.land mask allPieces in
  number <- index numbers sq ;;
  shift <- index shifts sq ;;
  let dbindex := shr64 (mul64 blockers number) shift in
  row <- index moves sq ;;
  index row dbindex.

Definition rookLookup (sq allPieces : Z) : M Z :=
  magicLookup (magicRookBlockerMasks T) (magicNumberRook T)
              (magicRookShifts T) (magicMovesRook T) sq allPieces.

Definition bishopLookup (sq allPieces : Z) : M Z :=
  magicLookup (magicBishopBlockerMasks T) (magicNumberBishop T)
              (magicBishopShifts T) (magicMovesBishop T) sq allPieces.

Definition underDirectAttack (byBlack : bool) (origin : Z) : M bool :=
  b <- getBoard ;;
  let allPieces := Z.lor (all (white b)) (all (black b)) in
  let opponentPieces := if byBlack then black b else white b in
  (* find attacking knights *)
  kmask <- index (knightMasks T) origin ;;
  let knight_attackers := Z.land kmask (knights opponentPieces) in
  if negb (knight_attackers =? 0) then ret true else
  (* find attacking bishops and queens *)
  diag <- bishopLookup origin allPieces ;;
  let diag_potential_attackers := Z.land diag (all opponentPieces) in
  let diag_attackers :=
    Z.land diag_potential_attackers
           (Z.lor (bishops opponentPieces) (queens opponentPieces)) in
  if negb (diag_attackers =? 0) then ret true else
  (* find attacking rooks and queens *)
  ortho <- rookLookup origin allPieces ;;
  let ortho_potential_attackers := Z.land ortho (all opponentPieces) in
  let ortho_attackers :=
    Z.land ortho_potential_attackers
           (Z.lor (rooks opponentPieces) (queens opponentPieces)) in
  if negb (ortho_attackers =? 0) then ret true else
  (* find attacking kings *)
  gmask <- index (kingMasks T) origin ;;
  let king_attackers := Z.land gmask (kings opponentPieces) in
  if negb (king_attackers =? 0) then ret true else
  (* find attacking pawns; [origin] is a [uint8], so are the sums and
     differences, and [origin-7 >= 0] compares a [uint8] *)
  let pawn_attackers :=
    if byBlack then
      Z.lor (shl64 1 (wrap8 (origin + 7))) (shl64 1 (wrap8 (origin + 9)))
    else
      let pa := if 0 <=? wrap8 (origin - 7)
                then shl64 1 (wrap8 (origin - 7)) else 0 in
      if 0 <=? wrap8 (origin - 9)
      then Z.lor pa (shl64 1 (wrap8 (origin - 9))) else pa in
  let pawn_attackers := Z.land pawn_attackers (pawns opponentPieces) in
  if negb (pawn_attackers =? 0) then ret true else ret false.

Fixpoint anyUnderDirectAttack (byBlack : bool) (squares : list Z) : M bool :=
  match squares with
  | [] => ret false
  | v :: rest =>
      hit <- underDirectAttack byBlack v ;;
      if hit then ret true else anyUnderDirectAttack byBlack rest
  end.

(** [p && q && !b.anyUnderDirectAttack(...)]: the call is made only when
    both flags hold. *)
Definition castleCheck (rights clear : bool) (byBlack : bool)
           (squares : list Z) : M bool :=
  if rights && clear then
    hit <- anyUnderDirectAttack byBlack squares ;;
    ret (negb hit)
  else ret false.

Definition bit (k : Z) : Z := shl64 1 k.

(** TODO in the source: Can't castle from, into, or through check.
    This assumes exactly one king is present. *)
Definition kingMoves (moveList : list Move) : M (list Move) :=
  b <- getBoard ;;
  let allPieces := Z.land (all (white b)) (all (black b)) in
  let ourSide := wtomove b (* ptrToOurBitboards *) in
  let ourKingLocation :=
    if wtomove b then wrap8 (TrailingZeros64 (kings (white b)))
    else wrap8 (TrailingZeros64 (kings (black b))) in
  let noFriendlyPieces :=
    if wtomove b then not64 (all (white b)) else not64 (all (black b)) in
  (* To castle, we must have rights and a clear path *)
  let kingsideClear :=
    if wtomove b
    then Z.land (Z.land allPieces (bit 5)) (bit 6) =? 0
    else Z.land (Z.land allPieces (bit 61)) (bit 62) =? 0 in
  let queensideClear :=
    if wtomove b
    then Z.land (Z.land (Z.land allPieces (bit 3)) (bit 2)) (bit 1) =? 0
    else Z.land (Z.land (Z.land allPieces (bit 57)) (bit 58)) (bit 59) =? 0 in
  canCastleQueenside <-
    (if wtomove b
     then castleCheck (whiteCanCastleQueenside b) queensideClear
                      true [0; 1; 2; 3; 4]
     else castleCheck (blackCanCastleQueenside b) queensideClear
                      false [56; 57; 58; 59; 60]) ;;
  canCastleKingside <-
    (if wtomove b
     then castleCheck (whiteCanCastleKingside b) kingsideClear
                      true [4; 5; 6; 7]
     else castleCheck (blackCanCastleKingside b) kingsideClear
                      false [60; 61; 62; 63]) ;;
  let moveList :=
    if canCastleKingside
    then moveList ++ [Setto (Setfrom zeroMove (Square ourKingLocation))
                            (Square (wrap8 (ourKingLocation + 2)))]
    else moveList in
  let moveList :=
    if canCastleQueenside
    then moveList ++ [Setto (Setfrom zeroMove (Square ourKingLocation))
                            (Square (wrap8 (ourKingLocation - 2)))]
    else moveList in
  (* Modifying the board: done to avoid the king danger problem, aka
     moving away from a checking slider. *)
  ours <- loadSide ourSide ;;
  let oldKings := kings ours in
  storeKings ourSide 0 ;;;
  ours <- loadSide ourSide ;;
  storeAll ourSide (Z.land (all ours) (not64 (bit ourKingLocation))) ;;;
  gmask <- index (kingMasks T) ourKingLocation ;;
  let targets := Z.land gmask noFriendlyPieces in
  moveList <- forBits scanFuel targets
    (fun target ml =>
       cur <- getBoard ;;
       hit <- underDirectAttack (wtomove cur) (wrap8 target) ;;
       if hit then ret ml
       else ret (ml ++ [Setto (Setfrom zeroMove (Square ourKingLocation))
                              (Square target)]))
    moveList ;;
  storeKings ourSide oldKings ;;;
  ours <- loadSide ourSide ;;
  storeAll ourSide (Z.lor (all ours) (bit ourKingLocation)) ;;;
  ret moveList.

Definition rookMoves (moveList : list Move) : M (list Move) :=
  b <- getBoard ;;
  let ourRooks := if wtomove b then rooks (white b) else rooks (black b) in
  let friendlyPieces := if wtomove b then all (white b) else all (black b) in
  let allPieces := Z.lor (all (white b)) (all (black b)) in
  forBits scanFuel ourRooks
    (fun currRook ml =>
       moves <- rookLookup currRook allPieces ;;
       let targets := Z.land moves (not64 friendlyPieces) in
       genMovesFromTargets ml (Square currRook) targets)
    moveList.

Definition bishopMoves (moveList : list Move) : M (list Move) :=
  b <- getBoard ;;
  let ourBishops :=
    if wtomove b then bishops (white b) else bishops (black b) in
  let friendlyPieces := if wtomove b then all (white b) else all (black b) in
  let allPieces := Z.lor (all (white b)) (all (black b)) in
  forBits scanFuel ourBishops
    (fun currBishop ml =>
       moves <- bishopLookup currBishop allPieces ;;
       let targets := Z.land moves (not64 friendlyPieces) in
       genMovesFromTargets ml (Square currBishop) targets)
    moveList.

Definition queenMoves (moveList : list Move) : M (list Move) :=
  b <- getBoard ;;
  let ourQueens :=
    if wtomove b then queens (white b) else queens (black b) in
  let friendlyPieces := if wtomove b then all (white b) else all (black b) in
  let allPieces := Z.lor (all (white b)) (all (black b)) in
  forBits scanFuel ourQueens
    (fun currQueen ml =>
       (* bishop motion *)
       diag <- bishopLookup currQueen allPieces ;;
       let diag_targets := Z.land diag (not64 friendlyPieces) in
       ml <- genMovesFromTargets ml (Square currQueen) diag_targets ;;
       (* rook motion *)
       ortho <- rookLookup currQueen allPieces ;;
       let ortho_targets := Z.land ortho (not64 friendlyPieces) in
       genMovesFromTargets ml (Square currQueen) ortho_targets)
    moveList.

(** The main API entrypoint. Generates all pseudo-legal moves for a given
    board. *)
Definition GenerateLegalMoves : M (list Move) :=
  let moves := [] in
  moves <- pawnPushes moves ;;
  moves <- pawnCaptures moves ;;
  moves <- knightMoves moves ;;
  moves <- kingMoves moves ;;
  moves <- rookMoves moves ;;
  moves <- bishopMoves moves ;;
  moves <- queenMoves moves ;;
  ret moves.

End Generators.

(* ------------------------------------------------------------------ *)
(** ** Lookup tables built from the rules of movement *)

(** Modelled from the spec: the contents of the lookup tables are generated
    outside [movegen.go].  The knight and king masks hold the squares a
    leaper reaches from each square; a sliding family's move table holds, at
    the hashed index of each subset of the square's blocker mask, the squares
    reached along the family's rays up to and including the first blocker.
    The multipliers below are one collision-free choice for shift amounts of
    64 minus the size of the blocker mask. *)
Module Rules.

Definition onBoard (r f : Z) : bool :=
  (0 <=? r) && (r <? 8) && (0 <=? f) && (f <? 8).

Definition squareAt (r f : Z) : Z := 8 * r + f.

Definition leaper (offsets : list (Z * Z)) (s : Z) : Z :=
  fold_left
    (fun acc (d : Z * Z) =>
       let r := s / 8 + fst d in
       let f := s mod 8 + snd d in
       if onBoard r f then Z.lor acc (Z.shiftl 1 (squareAt r f)) else acc)
    offsets 0.

Definition knightOffsets : list (Z * Z) :=
  [(1, 2); (2, 1); (2, -1); (1, -2); (-1, -2); (-2, -1); (-2, 1); (-1, 2)].

Definition kingOffsets : list (Z * Z) :=
  [(1, 0); (1, 1); (0, 1); (-1, 1); (-1, 0); (-1, -1); (0, -1); (1, -1)].

Definition rookDirs : list (Z * Z) := [(1, 0); (-1, 0); (0, 1); (0, -1)].
Definition bishopDirs : list (Z * Z) := [(1, 1); (1, -1); (-1, 1); (-1, -1)].

(** The squares from [(r, f)] on in direction [(dr, df)], up to and
    including the first occupied one. *)
Fixpoint ray (fuel : nat) (r f dr df occ : Z) : Z :=
  match fuel with
  | O => 0
  | S k =>
      if onBoard r f then
        let here := Z.shiftl 1 (squareAt r f) in
        if Z.testbit occ (squareAt r f) then here
        else Z.lor here (ray k (r + dr) (f + df) dr df occ)
      else 0
  end.

Definition slide (dirs : list (Z * Z)) (s occ : Z) : Z :=
  fold_left
    (fun acc (d : Z * Z) =>
       Z.lor acc (ray 7 (s / 8 + fst d) (s mod 8 + snd d) (fst d) (snd d) occ))
    dirs 0.

(** The squares of a ray whose occupancy matters: all but the last. *)
Fixpoint inner (fuel : nat) (r f dr df : Z) : Z :=
  match fuel with
  | O => 0
  | S k =>
      if onBoard r f && onBoard (r + dr) (f + df)
      then Z.lor (Z.shiftl 1 (squareAt r f)) (inner k (r + dr) (f + df) dr df)
      else 0
  end.

Definition blockerMask (dirs : list (Z * Z)) (s : Z) : Z :=
  fold_left
    (fun acc (d : Z * Z) =>
       Z.lor acc (inner 7 (s / 8 + fst d) (s mod 8 + snd d) (fst d) (snd d)))
    dirs 0.

Fixpoint popcount (p : positive) : Z :=
  match p with
  | xH => 1
  | xO q => popcount q
  | xI q => 1 + popcount q
  end.

Definition maskBits (m : Z) : Z :=
  match m with Zpos p => popcount p | _ => 0 end.

(** All subsets of [m], from [s] on, in the order [s' = (s - m) & m]. *)
Fixpoint subsetsFrom (fuel : nat) (m s : Z) : list Z :=
  match fuel with
  | O => []
  | S k =>
      let s' := Z.land (s - m) m in
      s :: (if s' =? 0 then [] else subsetsFrom k m s')
  end.

Definition hash (magic shift sub : Z) : Z := shr64 (mul64 sub magic) shift.

Definition rowOf (dirs : list (Z * Z)) (magic s : Z) : list Z :=
  let m := blockerMask dirs s in
  let shift := 64 - maskBits m in
  let filled :=
    fold_left
      (fun acc sub =>
         PositiveMap.add (Z.to_pos (hash magic shift sub + 1))
                         (slide dirs s sub) acc)
      (subsetsFrom 4096 m 0) (PositiveMap.empty Z) in
  map (fun i =>
         match PositiveMap.find (Z.to_pos (i + 1)) filled with
         | Some v => v
         | None => 0
         end)
      (upFrom 0 (Z.to_nat (2 ^ maskBits m))).

Definition squares : list Z := upFrom 0 64.

Definition rookMagics : list Z := [
  0x80001024844000; 0x940001008402004; 0x100102000084102; 0x2200100804204200;
  0x8200100820020004; 0x300080e01000400; 0x400013000820408; 0x2080008000204100;
  0x820800080400020; 0x1028400040201002; 0xd804801003200080; 0x181000821001002;
  0x2040800400080080; 0x6001008040200; 0x1005000401000200; 0x8042000444089211;
  0x880004000200040; 0x40010022428500; 0x4820012002040; 0x80d010008201000;
  0x820808008000400; 0x8602808004000200; 0x4042004040010080; 0xd04420000408401;
  0x520400080002082; 0x2040500440002000; 0x810100080802000; 0x480280100080;
  0x8011080180140080; 0x82000404001020; 0x1410104000810c2; 0x1900c05200012084;
  0x1000400090800020; 0x40804000802000; 0x20010021004015; 0x8300800800801000;
  0x40a0040801001101; 0x702001806000c10; 0x10800200800100; 0x5008042000104;
  0x4100804000218000; 0x4402010040820021; 0x410020010010; 0x201001006210008;
  0x18000400808008; 0xa8cc001008020200; 0x510020004010100; 0x4410204081020004;
  0x2214800840002080; 0x1020802008400480; 0x68200080100080; 0x801000080080;
  0x2084020800048080; 0x20a000810040200; 0x1188480102100400; 0x2002041100a04200;
  0x800182080010041; 0x1008020104009; 0x8041004aa00013; 0x1080041000200901;
  0x2042000820101446; 0x889000208040001; 0x8044208230210804; 0x200040020804102
].

Definition bishopMagics : list Z := [
  0x2484808881a0221; 0xa20020202042810; 0x40040846004b1000; 0x300c340480148241;
  0x4042000044405; 0x201044240860092; 0x8165010121a00001; 0x21011041200820;
  0x8400403001810500; 0x11032c2828010174; 0x38488085020088; 0x3009041042000101;
  0x361440420000004; 0x44011002904030; 0x4a0020490143280; 0x13204202100220;
  0x8040012018260a80; 0x40480042020c2414; 0x102004040820880; 0x80004021120b4;
  0x705000090402008; 0x40e00a9008084a0; 0x8000480410a0; 0x6000465824020810;
  0x1020080920082110; 0x284200010015140; 0xa880404048008100; 0xc004014010083;
  0x3080840244802002; 0x8048002042020103; 0x4140820020821080; 0x404089028420089;
  0x218201004480200; 0x128208a924408; 0xc0403008080240; 0x402a120180180081;
  0x30020080201005; 0x50010840020041; 0x2010042a42810d22; 0x6008021080043085;
  0x1010802c0081080; 0x85004412a8002010; 0x20101490000802; 0x1008002124000800;
  0x1c9040408220400; 0x1102040810001a0; 0x804c42884141604; 0x22040c42100082;
  0x420220a10804; 0x202240708082149; 0x900c0084008800c1; 0x8000020880d00;
  0x114042042442000; 0x8100200202021803; 0x200903158801a001; 0x242810508a024082;
  0x502020202310c80; 0x40038098080204; 0x8200080200822105; 0x1000000000411080;
  0x2000080011020200; 0x8104021200e1580; 0x8080930401080a04; 0x324041004083084
].

Definition tables : Tables :=
  {| knightMasks := map (leaper knightOffsets) squares;
     kingMasks := map (leaper kingOffsets) squares;
     magicRookBlockerMasks := map (blockerMask rookDirs) squares;
     magicNumberRook := rookMagics;
     magicRookShifts :=
       map (fun s => 64 - maskBits (blockerMask rookDirs s)) squares;
     magicMovesRook :=
       map (fun sm => rowOf rookDirs (snd sm) (fst sm))
           (combine squares rookMagics);
     magicBishopBlockerMasks := map (blockerMask bishopDirs) squares;
     magicNumberBishop := bishopMagics;
     magicBishopShifts :=
       map (fun s => 64 - maskBits (blockerMask bishopDirs s)) squares;
     magicMovesBishop :=
       map (fun sm => rowOf bishopDirs (snd sm) (fst sm))
           (combine squares bishopMagics) |}.

End Rules.

(* ------------------------------------------------------------------ *)
(** ** Positions used in concrete runs *)

(** The standard starting position: white to move, full castling rights,
    no en-passant square. *)
Definition startWhite : bitboards :=
  {| pawns := 0xFF00; bishops := 0x24; knights := 0x42; rooks := 0x81;
     queens := 0x08; kings := 0x10; all := 0xFFFF |}.

Definition startBlack : bitboards :=
  {| pawns := 0x00FF000000000000; bishops := 0x2400000000000000;
     knights := 0x4200000000000000; rooks := 0x8100000000000000;
     queens := 0x0800000000000000; kings := 0x1000000000000000;
     all := 0xFFFF000000000000 |}.

Definition startBoard : Board :=
  {| white := startWhite; black := startBlack; wtomove := true;
     enpassant := 0;
     castleWK := true; castleWQ := true; castleBK := true; castleBQ := true |}.

(** The starting position without the white king. *)
Definition kinglessBoard : Board :=
  {| white := {| pawns := 0xFF00; bishops := 0x24; knights := 0x42;
                 rooks := 0x81; queens := 0x08; kings := 0;
                 all := 0xFFEF |};
     black := startBlack; wtomove := true; enpassant := 0;
     castleWK := false; castleWQ := false;
     castleBK := false; castleBQ := false |}.

(** White: king e1.  Black: king e8 and a pawn on h2.  White to move. *)
Definition pawnH2Board : Board :=
  {| white := {| pawns := 0; bishops := 0; knights := 0; rooks := 0;
                 queens := 0; kings := 0x10; all := 0x10 |};
     black := {| pawns := 0x8000; bishops := 0; knights := 0; rooks := 0;
                 queens := 0; kings := 0x1000000000000000;
                 all := 0x1000000000008000 |};
     wtomove := true; enpassant := 0;
     castleWK := false; castleWQ := false;
     castleBK := false; castleBQ := false |}.

(** After 1. e4 a6 2. e5 d5: white pawn on e5, black pawn just pushed to
    d5, en-passant square d6, white to move. *)
Definition enPassantBoard : Board :=
  {| white := {| pawns := 0x100000EF00; bishops := 0x24; knights := 0x42;
                 rooks := 0x81; queens := 0x08; kings := 0x10;
                 all := 0x100000EFFF |};
     black := {| pawns := 0x00F6010800000000; bishops := 0x2400000000000000;
                 knights := 0x4200000000000000; rooks := 0x8100000000000000;
                 queens := 0x0800000000000000; kings := 0x1000000000000000;
                 all := 0xFFF6010800000000 |};
     wtomove := true; enpassant := 43;
     castleWK := true; castleWQ := true; castleBK := true; castleBQ := true |}.

(** White: king e1, pawns a7 and g7.  Black: king e8, rook h8.  White to
    move: a7 promotes by pushing, g7 by capturing on h8 or by pushing. *)
Definition promotionBoard : Board :=
  {| white := {| pawns := 0x0041000000000000; bishops := 0; knights := 0;
                 rooks := 0; queens := 0; kings := 0x10;
                 all := 0x0041000000000010 |};
     black := {| pawns := 0; bishops := 0; knights := 0;
                 rooks := 0x8000000000000000; queens := 0;
                 kings := 0x1000000000000000;
                 all := 0x9000000000000000 |};
     wtomove := true; enpassant := 0;
     castleWK := false; castleWQ := false;
     castleBK := false; castleBQ := false |}.

(** White: king e1, rook a1, queen-side castling right.  Black: king e8,
    rook a8, which attacks a1 down the open file.  White to move. *)
Definition rookA8Board : Board :=
  {| white := {| pawns := 0; bishops := 0; knights := 0; rooks := 0x01;
                 queens := 0; kings := 0x10; all := 0x11 |};
     black := {| pawns := 0; bishops := 0; knights := 0;
                 rooks := 0x0100000000000000; queens := 0;
                 kings := 0x1000000000000000;
                 all := 0x1100000000000000 |};
     wtomove := true; enpassant := 0;
     castleWK := false; castleWQ := true;
     castleBK := false; castleBQ := false |}.

(** White: king e2.  Black: king a8, rook e8, whose ray down the e file
    ends on the white king.  White to move. *)
Definition kingRayBoard : Board :=
  {| white := {| pawns := 0; bishops := 0; knights := 0; rooks := 0;
                 queens := 0; kings := 0x1000; all := 0x1000 |};
     black := {| pawns := 0; bishops := 0; knights := 0;
                 rooks := 0x1000000000000000; queens := 0;
                 kings := 0x0100000000000000;
                 all := 0x1100000000000000 |};
     wtomove := true; enpassant := 0;
     castleWK := false; castleWQ := false;
     castleBK := false; castleBQ := false |}.

(** A malformed board: two white kings, an empty white aggregate and an
    en-passant value that is no square.  White to move. *)
Definition twoKingsBoard : Board :=
  {| white := {| pawns := 0xFF00; bishops := 0x24; knights := 0x42;
                 rooks := 0x81; queens := 0x08; kings := 0x11; all := 0 |};
     black := startBlack; wtomove := true; enpassant := 200;
     castleWK := true; castleWQ := true; castleBK := true; castleBQ := true |}.

Definition movesOf {A} (o : Outcome A) : option A :=
  match o with Done a _ _ => Some a | _ => None end.

(* ------------------------------------------------------------------ *)
(** ** Well-formed boards and tables *)

Definition sideWords (s : bitboards) : Prop :=
  is64 (pawns s) /\ is64 (bishops s) /\ is64 (knights s) /\ is64 (rooks s) /\
  is64 (queens s) /\ is64 (kings s) /\ is64 (all s).

(** The typing of the board: 64-bit bitboards and an 8-bit en-passant
    square. *)
Definition boardWords (b : Board) : Prop :=
  sideWords (white b) /\ sideWords (black b) /\ 0 <= enpassant b < 2 ^ 8.

Definition aggregate (s : bitboards) : Z :=
  Z.lor (pawns s)
    (Z.lor (bishops s)
       (Z.lor (knights s) (Z.lor (rooks s) (Z.lor (queens s) (kings s))))).

Definition oneKing (s : bitboards) : Prop :=
  exists k, 0 <= k < 64 /\ kings s = 2 ^ k.

(** The invariants of the data model: each aggregate is the union of the
    side's six piece bitboards, the two sides never overlap, each side has
    exactly one king, and the en-passant square is a square index (0 when
    absent). *)
Record wellFormed (b : Board) : Prop := mkWellFormed {
  wf_words : boardWords b;
  wf_white_all : all (white b) = aggregate (white b);
  wf_black_all : all (black b) = aggregate (black b);
  wf_disjoint : Z.land (all (white b)) (all (black b)) = 0;
  wf_white_king : oneKing (white b);
  wf_black_king : oneKing (black b);
  wf_enpassant : 0 <= enpassant b < 64
}.

(** The sizing contract of a sliding family: every shift amount is a shift
    count and the largest index the hash can produce lies inside the row. *)
Definition rowsSized (shifts : list Z) (moves : list (list Z)) : bool :=
  forallb
    (fun sr : Z * list Z =>
       (0 <=? fst sr) && (Z.shiftr max64 (fst sr) <? Z.of_nat (length (snd sr))))
    (combine shifts moves).

Definition has64 {A} (l : list A) : bool := Nat.eqb (length l) 64.

(** The tables are per-square arrays (64 entries each) and the move tables
    are sized for their hash. *)
Definition tablesSizedb (T : Tables) : bool :=
  has64 (knightMasks T) && has64 (kingMasks T) &&
  has64 (magicRookBlockerMasks T) && has64 (magicNumberRook T) &&
  has64 (magicRookShifts T) && has64 (magicMovesRook T) &&
  has64 (magicBishopBlockerMasks T) && has64 (magicNumberBishop T) &&
  has64 (magicBishopShifts T) && has64 (magicMovesBishop T) &&
  rowsSized (magicRookShifts T) (magicMovesRook T) &&
  rowsSized (magicBishopShifts T) (magicMovesBishop T).

Definition tablesSized (T : Tables) : Prop := tablesSizedb T = true.

(** The squares of a bitboard, lowest first. *)
Definition bitsOf (x : Z) : list Z := filter (Z.testbit x) (upFrom 0 64).

(* ------------------------------------------------------------------ *)
(** ** Definitions used in the statements and proofs *)

(** *** Scans and runs *)

(** [n] rounds of the scan loop clear [x]: its bits lie in [[lo, 64)] and
    [n] is at least the width of that range. *)
Definition clearsIn (n : nat) (x : Z) : Prop :=
  is64 x /\
  exists lo, 0 <= lo <= 64 /\ 64 - lo <= Z.of_nat n /\
             forall i, Z.testbit x i = true -> lo <= i.

(** A run that returns [a], leaves the board as it found it and stores
    nothing. *)
Definition pureRun {A} (c : M A) (b : Board) (a : A) : Prop :=
  c b = Done a b [].

Definition returnsOn {A} (c : M A) (b : Board) : Prop :=
  exists a, pureRun c b a.

(** A computation that never stores and never changes the board, whatever
    it is run on; it may panic. *)
Definition readOnly {A} (c : M A) : Prop :=
  forall b,
    match c b with
    | Done _ b' w => b' = b /\ w = []
    | Panic => True
    | Timeout => False
    end.

(** A run from [b] that returns, leaving [b'] and having stored [w]. *)
Definition runsTo {A} (c : M A) (b b' : Board) (w : list Store) : Prop :=
  exists a, c b = Done a b' w.

(** *** What the pawn generators append *)

Definition promotionPieces : list Piece := [Knight; Bishop; Rook; Queen].

(** The far rank of the side to move. *)
Definition farRank (b : Board) (t : Z) : bool :=
  if wtomove b then 56 <=? t else t <=? 7.

(** The moves appended for one origin/destination pair by the promotion
    fan-out rule. *)
Definition emit (b : Board) (origin target : Z) : list Move :=
  if farRank b target
  then map (mkMove origin target) promotionPieces
  else [mkMove origin target Nothing].

Definition pushBoards (b : Board) : Z * Z :=
  match pawnPushBitboards b with
  | Done v _ _ => v
  | _ => (0, 0)
  end.

Definition captureBoards (b : Board) : Z * Z :=
  match pawnCaptureBitboards b with
  | Done v _ _ => v
  | _ => (0, 0)
  end.

Definition stepBack (b : Board) : Z := if wtomove b then - 8 else 8.

(** The offset from a capture target back to its origin, per direction
    index of the capture loop. *)
Definition captureBack (b : Board) (dir : Z) : Z :=
  if wtomove b then - (9 - dir * 2) else 9 - dir * 2.

Definition singlePushes (b : Board) : list Move :=
  flat_map (fun t => emit b (Square (t + stepBack b)) t)
           (bitsOf (fst (pushBoards b))).

Definition doublePushes (b : Board) : list Move :=
  flat_map (fun t => [mkMove (Square (t + 2 * stepBack b)) t Nothing])
           (bitsOf (snd (pushBoards b))).

Definition capturesDir (b : Board) (dir : Z) (board : Z) : list Move :=
  flat_map (fun t => emit b (Square (t + captureBack b dir)) t)
           (bitsOf board).

(** The capture loop reads east first for white and west first for
    black. *)
Definition firstCaptures (b : Board) : Z :=
  if negb (wtomove b) then snd (captureBoards b) else fst (captureBoards b).

Definition secondCaptures (b : Board) : Z :=
  if negb (wtomove b) then fst (captureBoards b) else snd (captureBoards b).

Definition pushList (b : Board) : list Move :=
  singlePushes b ++ doublePushes b.

Definition captureList (b : Board) : list Move :=
  capturesDir b 0 (firstCaptures b) ++ capturesDir b 1 (secondCaptures b).

(** *** The effect of the king generator on the board *)

(** The square the king generator takes for the mover's king. *)
Definition kingSquare (b : Board) : Z :=
  wrap8 (TrailingZeros64 (kings (sideOf (wtomove b) b))).

(** The board while the king generator probes: the mover's king bitboard
    emptied and the king's bit removed from the aggregate. *)
Definition kingLifted (b : Board) : Board :=
  let side := wtomove b in
  let b1 := withSide side (setKings (sideOf side b) 0) b in
  withSide side
    (setAll (sideOf side b1)
            (Z.land (all (sideOf side b1)) (not64 (bit (kingSquare b)))))
    b1.

(** The board the king generator leaves behind. *)
Definition kingFinal (b : Board) : Board :=
  let side := wtomove b in
  let b2 := kingLifted b in
  let b3 := withSide side (setKings (sideOf side b2) (kings (sideOf side b))) b2 in
  withSide side
    (setAll (sideOf side b3) (Z.lor (all (sideOf side b3)) (bit (kingSquare b))))
    b3.

(** The stores the king generator performs, in order. *)
Definition kingStores (b : Board) : list Store :=
  let side := wtomove b in
  let lifted := Z.land (all (sideOf side b)) (not64 (bit (kingSquare b))) in
  [StoreKings side 0; StoreAll side lifted;
   StoreKings side (kings (sideOf side b));
   StoreAll side (Z.lor lifted (bit (kingSquare b)))].

(** *** The rule of pawn captures *)

Definition rankOf (s : Z) : Z := s / 8.
Definition fileOf (s : Z) : Z := s mod 8.

(** The rank step of the side to move. *)
Definition forward (b : Board) : Z := if wtomove b then 1 else - 1.

Definition ours (b : Board) : bitboards := sideOf (wtomove b) b.
Definition theirs (b : Board) : bitboards := sideOf (negb (wtomove b)) b.

(** [t] is one square diagonally forward of [p], east or west, on the
    board. *)
Definition diagonalForward (b : Board) (p t : Z) : Prop :=
  rankOf t = rankOf p + forward b /\
  (fileOf t = fileOf p + 1 \/ fileOf t = fileOf p - 1).

(** The rule of pawn captures: an own pawn on [p], [t] diagonally forward
    of it, and [t] held by the opponent or the active en-passant square. *)
Definition captureRule (b : Board) (p t : Z) : Prop :=
  0 <= p < 64 /\ 0 <= t < 64 /\
  Z.testbit (pawns (ours b)) p = true /\
  diagonalForward b p t /\
  (Z.testbit (all (theirs b)) t = true \/
   (0 < enpassant b /\ t = enpassant b)).

Definition captureTarget (b : Board) (t : Z) : bool :=
  (if 0 <? enpassant b then t =? enpassant b else false)
  || Z.testbit (all (theirs b)) t.

(** The bitboard the capture loop scans for direction index [dir]. *)
Definition dirBoard (b : Board) (dir : Z) : Z :=
  if dir =? 0 then firstCaptures b else secondCaptures b.

(** The file a target of direction [dir] cannot be on: the one a shift
    across the board edge would land on. *)
Definition edgeFile (b : Board) (dir : Z) : Z :=
  if wtomove b then (if dir =? 0 then 0 else 7)
  else (if dir =? 0 then 7 else 0).

(** *** Moves of one origin/destination pair *)

(** [n] has the origin and destination of [m]. *)
Definition samePair (m n : Move) : bool :=
  (mfrom n =? mfrom m) && (mto n =? mto m).

Definition key (o t : Z) (n : Move) : bool := (mfrom n =? o) && (mto n =? t).

(** The moves of one scan loop: targets [L], origins [d] away. *)
Definition seg (b : Board) (d : Z) (L : list Z) : list Move :=
  flat_map (fun t => emit b (Square (t + d)) t) L.

(** *** Values of runs and the lists of the piece generators *)

(** The value a run returns, [d] when it does not return. *)
Definition valueOf {A} (c : M A) (b : Board) (d : A) : A :=
  match c b with
  | Done a _ _ => a
  | _ => d
  end.

(** One plain move from [origin] to each square of [targets], lowest
    first. *)
Definition movesTo (origin targets : Z) : list Move :=
  map (fun t => mkMove origin t Nothing) (bitsOf targets).

(** The moves of every piece of the bitboard [pieces], lowest piece first,
    each to the squares of its own target bitboard. *)
Definition pieceMoves (pieces : Z) (targets : Z -> Z) : list Move :=
  flat_map (fun s => movesTo (Square s) (targets s)) (bitsOf pieces).

(** All pieces of both sides, as the sliding generators compute it. *)
Definition occupied (b : Board) : Z := Z.lor (all (white b)) (all (black b)).

(** What a table read yields. *)
Definition maskAt (tbl : list Z) (s : Z) : Z := nth (Z.to_nat s) tbl 0.

Definition knightTargets (T : Tables) (b : Board) (s : Z) : Z :=
  Z.land (maskAt (knightMasks T) s) (not64 (all (ours b))).

Definition rookTargets (T : Tables) (b : Board) (s : Z) : Z :=
  Z.land (valueOf (rookLookup T s (occupied b)) b 0) (not64 (all (ours b))).

Definition bishopTargets (T : Tables) (b : Board) (s : Z) : Z :=
  Z.land (valueOf (bishopLookup T s (occupied b)) b 0) (not64 (all (ours b))).

(** A queen's moves: the bishop-like ones, then the rook-like ones. *)
Definition queenList (T : Tables) (b : Board) : list Move :=
  flat_map (fun s => movesTo (Square s) (bishopTargets T b s)
                     ++ movesTo (Square s) (rookTargets T b s))
           (bitsOf (queens (ours b))).

(** The candidate squares of the king generator. *)
Definition kingTargets (T : Tables) (b : Board) : Z :=
  Z.land (maskAt (kingMasks T) (kingSquare b)) (not64 (all (ours b))).

(** What the oracle answers for [t] while the king is lifted. *)
Definition probed (T : Tables) (b : Board) (t : Z) : bool :=
  valueOf (underDirectAttack T (wtomove b) (wrap8 t)) (kingLifted b) false.

(** The plain king moves: one per candidate the oracle does not report
    attacked. *)
Definition kingSteps (T : Tables) (b : Board) : list Move :=
  flat_map (fun t => if probed T b t then []
                     else [mkMove (kingSquare b) t Nothing])
           (bitsOf (kingTargets T b)).

(** The castle moves for the two answers of the castle tests, king side
    first. *)
Definition castleMoves (b : Board) (kingside queenside : bool) : list Move :=
  (if kingside
   then [mkMove (kingSquare b) (wrap8 (kingSquare b + 2)) Nothing] else [])
  ++ (if queenside
      then [mkMove (kingSquare b) (wrap8 (kingSquare b - 2)) Nothing] else []).

(** The squares the castle tests probe, per side to move. *)
Definition kingsideProbes (b : Board) : list Z :=
  if wtomove b then [4; 5; 6; 7] else [60; 61; 62; 63].

Definition queensideProbes (b : Board) : list Z :=
  if wtomove b then [0; 1; 2; 3; 4] else [56; 57; 58; 59; 60].

Definition kingsideRight (b : Board) : bool :=
  if wtomove b then whiteCanCastleKingside b else blackCanCastleKingside b.

Definition queensideRight (b : Board) : bool :=
  if wtomove b then whiteCanCastleQueenside b else blackCanCastleQueenside b.

(** The answer of a castle test whose clear-path flag is [true]. *)
Definition castleAnswer (T : Tables) (b : Board) (right : bool)
           (probes : list Z) : bool :=
  valueOf (castleCheck T right true (wtomove b) probes) b false.

(** *** The rule of pawn pushes *)

(** No piece of either side on [t]. *)
Definition emptyAt (b : Board) (t : Z) : bool :=
  negb (Z.testbit (all (white b)) t) && negb (Z.testbit (all (black b)) t).

(** The rank (0-based) a double push lands on, and the one it starts
    from. *)
Definition doubleRank (b : Board) : Z := if wtomove b then 3 else 4.
Definition startRank (b : Board) : Z := if wtomove b then 1 else 6.

(** A pawn on [p] pushes to [t]: one rank forward onto an empty square, or
    two ranks forward from its start rank over an empty square onto an
    empty square. *)
Definition pushRule (b : Board) (p t : Z) : Prop :=
  0 <= p < 64 /\ 0 <= t < 64 /\
  Z.testbit (pawns (ours b)) p = true /\
  ((t = p + 8 * forward b /\ emptyAt b t = true) \/
   (t = p + 16 * forward b /\ rankOf p = startRank b /\
    emptyAt b (p + 8 * forward b) = true /\ emptyAt b t = true)).

(** *** A position used for the oracle *)

(** The white pieces of the starting position on an otherwise empty board;
    black has no piece at all.  White to move. *)
Definition whiteOnlyBoard : Board :=
  {| white := startWhite;
     black := mkBitboards 0 0 0 0 0 0 0;
     wtomove := true; enpassant := 0;
     castleWK := false; castleWQ := false;
     castleBK := false; castleBQ := false |}.

(** Black has the eight pawns of its start rank and nothing else; white has
    a king on e1.  White to move. *)
Definition blackPawnsBoard : Board :=
  {| white := {| pawns := 0; bishops := 0; knights := 0; rooks := 0;
                 queens := 0; kings := 0x10; all := 0x10 |};
     black := {| pawns := 0x00FF000000000000; bishops := 0; knights := 0;
                 rooks := 0; queens := 0; kings := 0;
                 all := 0x00FF000000000000 |};
     wtomove := true; enpassant := 0;
     castleWK := false; castleWQ := false;
     castleBK := false; castleBQ := false |}.

(* ------------------------------------------------------------------ *)
(** ** Lemmas on words and on the bit scan *)

Lemma pow64 : 2 ^ 64 = 18446744073709551616.
Proof. reflexivity. Qed.

Lemma pow8 : 2 ^ 8 = 256.
Proof. reflexivity. Qed.

Lemma wrap64_is64 x : is64 (wrap64 x).
Proof. unfold is64, wrap64. apply Z.mod_pos_bound. reflexivity. Qed.

Lemma wrap8_small x : 0 <= x < 256 -> wrap8 x = x.
Proof. intros H. unfold wrap8. rewrite pow8. apply Z.mod_small. exact H. Qed.

Lemma is64_testbit x i : is64 x -> Z.testbit x i = true -> 0 <= i < 64.
Proof.
  intros [Hlo Hhi] Hb.
  destruct (Z.ltb_spec i 0) as [Hn | Hn].
  - rewrite Z.testbit_neg_r in Hb by exact Hn. discriminate.
  - split; [exact Hn |].
    destruct (Z.ltb_spec i 64) as [Hi | Hi]; [exact Hi |].
    destruct (Z.eq_dec x 0) as [-> | Hx].
    + rewrite Z.bits_0 in Hb. discriminate.
    + assert (Hl : Z.log2 x < 64) by (apply Z.log2_lt_pow2; lia).
      rewrite Z.bits_above_log2 in Hb; [discriminate | lia | lia].
Qed.

Lemma is64_of_bits x :
  0 <= x -> (forall i, Z.testbit x i = true -> i < 64) -> is64 x.
Proof.
  intros Hx Hb. split; [exact Hx |].
  destruct (Z.eq_dec x 0) as [-> | Hn]; [reflexivity |].
  apply Z.log2_lt_pow2; [lia |].
  apply Hb. apply Z.bit_log2. lia.
Qed.

Lemma land_is64_l x y : is64 x -> is64 (Z.land x y).
Proof.
  intros Hx. apply is64_of_bits.
  - apply Z.land_nonneg. left. apply Hx.
  - intros i Hi. rewrite Z.land_spec in Hi.
    apply andb_true_iff in Hi. destruct Hi as [Hi _].
    apply (is64_testbit x i Hx Hi).
Qed.

Lemma land_is64_r x y : is64 y -> is64 (Z.land x y).
Proof. intros Hy. rewrite Z.land_comm. apply land_is64_l; assumption. Qed.

Lemma lor_is64 x y : is64 x -> is64 y -> is64 (Z.lor x y).
Proof.
  intros Hx Hy. apply is64_of_bits.
  - apply Z.lor_nonneg. split; [apply Hx | apply Hy].
  - intros i Hi. rewrite Z.lor_spec in Hi.
    apply orb_true_iff in Hi. destruct Hi as [Hi | Hi].
    + apply (is64_testbit x i Hx Hi).
    + apply (is64_testbit y i Hy Hi).
Qed.

Lemma max64_is64 : is64 max64.
Proof. unfold is64, max64. rewrite pow64. cbn. lia. Qed.

Lemma not64_is64 x : is64 (not64 x).
Proof.
  unfold not64. apply is64_of_bits.
  - apply Z.land_nonneg. right. apply max64_is64.
  - intros i Hi. rewrite Z.land_spec in Hi.
    apply andb_true_iff in Hi. destruct Hi as [_ Hi].
    apply (is64_testbit max64 i max64_is64 Hi).
Qed.

Lemma shl64_is64 x k : is64 (shl64 x k).
Proof. apply wrap64_is64. Qed.

(** Bits of the word operations, at a square. *)
Lemma not64_bit x i :
  0 <= i < 64 -> Z.testbit (not64 x) i = negb (Z.testbit x i).
Proof.
  intros Hi. unfold not64, max64.
  rewrite Z.land_spec, Z.lnot_spec by lia.
  rewrite Z.ones_spec_low by lia. apply andb_true_r.
Qed.

Lemma shl64_bit x k i :
  0 <= k -> 0 <= i < 64 -> Z.testbit (shl64 x k) i = Z.testbit x (i - k).
Proof.
  intros Hk Hi. unfold shl64, wrap64.
  rewrite Z.mod_pow2_bits_low by lia.
  apply Z.shiftl_spec. lia.
Qed.

Lemma shr64_bit x k i :
  0 <= i -> Z.testbit (shr64 x k) i = Z.testbit x (i + k).
Proof. intros Hi. unfold shr64. apply Z.shiftr_spec. exact Hi. Qed.

Lemma bit_testbit k i :
  0 <= k -> 0 <= i < 64 -> Z.testbit (bit k) i = (i =? k).
Proof.
  intros Hk Hi. unfold bit. rewrite shl64_bit by lia.
  destruct (Z.eqb_spec i k) as [-> | Hne].
  - rewrite Z.sub_diag. reflexivity.
  - destruct (Z.ltb_spec (i - k) 0) as [Hn | Hn].
    + apply Z.testbit_neg_r. exact Hn.
    + replace (i - k) with (Z.succ (i - k - 1)) by lia.
      change 1 with (2 * 0 + 1) at 1.
      rewrite Z.testbit_odd_succ by lia. apply Z.bits_0.
Qed.

(** *** Trailing zeros and clearing the lowest bit *)

Lemma lowBit_nonneg p : 0 <= lowBit p.
Proof. induction p; simpl; lia. Qed.

Lemma lowBit_set p : Z.testbit (Zpos p) (lowBit p) = true.
Proof.
  induction p as [q IH | q IH |]; simpl lowBit; try reflexivity.
  change (Zpos q~0) with (2 * Zpos q).
  rewrite Z.testbit_even_succ by apply lowBit_nonneg. exact IH.
Qed.

Lemma lowBit_least p i : i < lowBit p -> Z.testbit (Zpos p) i = false.
Proof.
  revert i. induction p as [q IH | q IH |]; simpl lowBit; intros i Hi.
  - apply Z.testbit_neg_r. exact Hi.
  - destruct (Z.ltb_spec i 0) as [Hn | Hn];
      [apply Z.testbit_neg_r; exact Hn |].
    destruct (Z.eq_dec i 0) as [-> | Hz]; [reflexivity |].
    replace i with (Z.succ (i - 1)) by lia.
    change (Zpos q~0) with (2 * Zpos q).
    rewrite Z.testbit_even_succ by lia. apply IH. lia.
  - apply Z.testbit_neg_r. exact Hi.
Qed.

Lemma succ_cases i :
  i < 0 \/ i = 0 \/ exists j, 0 <= j /\ i = Z.succ j.
Proof.
  destruct (Z.ltb_spec i 0) as [Hn | Hn]; [left; exact Hn | right].
  destruct (Z.eq_dec i 0) as [Hz | Hz]; [left; exact Hz | right].
  exists (i - 1). lia.
Qed.

Lemma clearLowest_pos_bit p i :
  Z.testbit (clearLowest (Zpos p)) i
  = Z.testbit (Zpos p) i && negb (i =? lowBit p).
Proof.
  revert i. unfold clearLowest.
  induction p as [q IH | q IH |]; intros i; simpl lowBit;
    destruct (succ_cases i) as [Hn | [-> | [j [Hj ->]]]];
    try (rewrite Z.land_spec, !Z.testbit_neg_r by exact Hn; reflexivity).
  - rewrite Z.land_spec. reflexivity.
  - (* 2q+1: the lowest bit is bit 0 *)
    rewrite Z.land_spec.
    replace (Z.succ j =? 0) with false by (symmetry; apply Z.eqb_neq; lia).
    replace (Zpos q~1 - 1) with (2 * Zpos q) by lia.
    change (Zpos q~1) with (2 * Zpos q + 1).
    rewrite Z.testbit_odd_succ, Z.testbit_even_succ by lia.
    rewrite andb_diag, andb_true_r. reflexivity.
  - rewrite Z.land_spec. reflexivity.
  - (* 2q: shift the claim for q *)
    rewrite Z.land_spec.
    replace (Zpos q~0 - 1) with (2 * (Zpos q - 1) + 1) by lia.
    change (Zpos q~0) with (2 * Zpos q).
    rewrite Z.testbit_odd_succ, Z.testbit_even_succ by lia.
    rewrite <- Z.land_spec, IH.
    replace (Z.succ j =? Z.succ (lowBit q)) with (j =? lowBit q);
      [reflexivity |].
    destruct (Z.eqb_spec j (lowBit q)),
             (Z.eqb_spec (Z.succ j) (Z.succ (lowBit q)));
      (reflexivity || lia).
  - reflexivity.
  - (* 1 *)
    change (Z.land 1 (1 - 1)) with 0. rewrite Z.bits_0.
    change 1 with (2 * 0 + 1) at 1.
    rewrite Z.testbit_odd_succ by lia. rewrite Z.bits_0. reflexivity.
Qed.

Lemma tz_set x : 0 < x -> Z.testbit x (TrailingZeros64 x) = true.
Proof. destruct x; try lia. intros _. apply lowBit_set. Qed.

Lemma tz_least x i : 0 < x -> i < TrailingZeros64 x -> Z.testbit x i = false.
Proof. destruct x; try lia. intros _. apply lowBit_least. Qed.

Lemma tz_range x : is64 x -> x <> 0 -> 0 <= TrailingZeros64 x < 64.
Proof.
  intros Hx Hn. apply (is64_testbit x); [exact Hx |].
  apply tz_set. unfold is64 in Hx. lia.
Qed.

Lemma clearLowest_bit x i :
  0 < x ->
  Z.testbit (clearLowest x) i
  = Z.testbit x i && negb (i =? TrailingZeros64 x).
Proof. destruct x; try lia. intros _. apply clearLowest_pos_bit. Qed.

Lemma upFrom_In lo n t : In t (upFrom lo n) <-> lo <= t < lo + Z.of_nat n.
Proof.
  revert lo. induction n as [| k IH]; intros lo; simpl upFrom.
  - simpl. lia.
  - simpl In. rewrite IH. lia.
Qed.

Lemma upFrom_NoDup lo n : NoDup (upFrom lo n).
Proof.
  revert lo. induction n as [| k IH]; intros lo; simpl; constructor.
  - rewrite upFrom_In. lia.
  - apply IH.
Qed.

Lemma bitsOf_In x t : In t (bitsOf x) <-> 0 <= t < 64 /\ Z.testbit x t = true.
Proof.
  unfold bitsOf. rewrite filter_In, upFrom_In.
  change (Z.of_nat 64) with 64. tauto.
Qed.

Lemma bitsOf_NoDup x : NoDup (bitsOf x).
Proof. apply NoDup_filter, upFrom_NoDup. Qed.

Lemma bitsOf_zero : bitsOf 0 = [].
Proof. reflexivity. Qed.

(** Over a range, the lowest set bit comes first and the rest are the
    bits of the word with that bit cleared. *)
Lemma filter_lowest x x' t lo n :
  lo <= t < lo + Z.of_nat n ->
  Z.testbit x t = true ->
  (forall i, i < t -> Z.testbit x i = false) ->
  (forall i, Z.testbit x' i = Z.testbit x i && negb (i =? t)) ->
  filter (Z.testbit x) (upFrom lo n)
  = t :: filter (Z.testbit x') (upFrom lo n).
Proof.
  intros Ht Hset Hleast Hclear. revert lo Ht.
  induction n as [| k IH]; intros lo Ht; [simpl in Ht; lia |].
  simpl upFrom. simpl filter.
  destruct (Z.eq_dec lo t) as [-> | Hne].
  - rewrite Hset, Hclear, Hset, Z.eqb_refl. simpl. f_equal.
    apply filter_ext_in. intros i Hi. apply upFrom_In in Hi.
    rewrite Hclear.
    replace (i =? t) with false by (symmetry; apply Z.eqb_neq; lia).
    rewrite andb_true_r. reflexivity.
  - rewrite Hclear, (Hleast lo) by lia. simpl.
    apply IH. lia.
Qed.

Lemma bitsOf_step x :
  is64 x -> x <> 0 ->
  bitsOf x = TrailingZeros64 x :: bitsOf (clearLowest x).
Proof.
  intros Hx Hn. unfold bitsOf.
  assert (Hp : 0 < x) by (unfold is64 in Hx; lia).
  apply filter_lowest.
  - pose proof (tz_range x Hx Hn). change (Z.of_nat 64) with 64. lia.
  - apply tz_set. exact Hp.
  - intros i Hi. apply tz_least; assumption.
  - intros i. apply clearLowest_bit. exact Hp.
Qed.

Lemma clearLowest_is64 x : is64 x -> x <> 0 -> is64 (clearLowest x).
Proof.
  intros Hx Hn. unfold clearLowest. apply land_is64_l. exact Hx.
Qed.

Lemma clearsIn_word x : is64 x -> clearsIn 64 x.
Proof.
  intros Hx. split; [exact Hx |]. exists 0.
  change (Z.of_nat 64) with 64. repeat split; try lia.
  intros i Hi. apply (is64_testbit x i Hx Hi).
Qed.

Lemma clearsIn_zero x : clearsIn 0 x -> x = 0.
Proof.
  intros [Hx [lo [Hlo [Hn Hb]]]].
  destruct (Z.eq_dec x 0) as [Hz | Hz]; [exact Hz | exfalso].
  pose proof (tz_range x Hx Hz) as Hr.
  assert (Hset : Z.testbit x (TrailingZeros64 x) = true)
    by (apply tz_set; unfold is64 in Hx; lia).
  apply Hb in Hset. lia.
Qed.

Lemma clearsIn_step n x :
  clearsIn (S n) x -> x <> 0 -> clearsIn n (clearLowest x).
Proof.
  intros [Hx [lo [Hlo [Hn Hb]]]] Hz.
  assert (Hp : 0 < x) by (unfold is64 in Hx; lia).
  pose proof (tz_range x Hx Hz) as Hr.
  assert (Hset : Z.testbit x (TrailingZeros64 x) = true)
    by (apply tz_set; exact Hp).
  split; [apply clearLowest_is64; assumption |].
  exists (TrailingZeros64 x + 1). repeat split; try lia.
  - apply Hb in Hset. rewrite Nat2Z.inj_succ in Hn. lia.
  - intros i Hi. rewrite clearLowest_bit in Hi by exact Hp.
    apply andb_true_iff in Hi. destruct Hi as [Hi Hne].
    apply negb_true_iff, Z.eqb_neq in Hne.
    destruct (Z.ltb_spec i (TrailingZeros64 x)) as [Hlt | Hge]; [| lia].
    rewrite (tz_least x i Hp Hlt) in Hi. discriminate.
Qed.

(** The scan visits exactly the set bits, lowest first, and 64 rounds are
    enough for a 64-bit word. *)
Lemma bitScan_bitsOf n x : clearsIn n x -> bitScan n x = bitsOf x.
Proof.
  revert x. induction n as [| k IH]; intros x Hc.
  - rewrite (clearsIn_zero x Hc). reflexivity.
  - simpl bitScan. destruct (Z.eqb_spec x 0) as [-> | Hz]; [reflexivity |].
    rewrite (bitsOf_step x (proj1 Hc) Hz). f_equal.
    apply IH, clearsIn_step; assumption.
Qed.

Lemma forBits_scan (n : nat) (x : Z)
      (body : Z -> list Move -> M (list Move)) (g : Z -> list Move)
      (b : Board) :
  clearsIn n x ->
  (forall t s, In t (bitScan n x) -> body t s b = Done (s ++ g t) b []) ->
  forall s, forBits n x body s b = Done (s ++ flat_map g (bitScan n x)) b [].
Proof.
  revert x. induction n as [| k IH]; intros x Hc Hbody s.
  - rewrite (clearsIn_zero x Hc). cbn [forBits bitScan flat_map].
    change (0 =? 0) with true. cbv iota. unfold ret.
    rewrite app_nil_r. reflexivity.
  - cbn [forBits bitScan] in *. destruct (x =? 0) eqn:Hz.
    + unfold ret. cbn [flat_map]. rewrite app_nil_r. reflexivity.
    + apply Z.eqb_neq in Hz.
      unfold bind. rewrite Hbody by (left; reflexivity).
      rewrite IH.
      * cbn [flat_map app]. rewrite app_assoc. reflexivity.
      * apply clearsIn_step; assumption.
      * intros t s' Ht. apply Hbody. right. exact Ht.
Qed.

Lemma forBits_append (n : nat) (x : Z)
      (body : Z -> list Move -> M (list Move)) (g : Z -> list Move)
      (b : Board) :
  clearsIn n x ->
  (forall t s, In t (bitsOf x) -> body t s b = Done (s ++ g t) b []) ->
  forall s, forBits n x body s b = Done (s ++ flat_map g (bitsOf x)) b [].
Proof.
  intros Hc. rewrite <- (bitScan_bitsOf n x Hc). apply forBits_scan, Hc.
Qed.

Lemma forBits_pure {S : Type} (n : nat) (x : Z) (body : Z -> S -> M S)
      (b : Board) :
  clearsIn n x ->
  (forall t s, 0 <= t < 64 -> exists s', body t s b = Done s' b []) ->
  forall s, exists s', forBits n x body s b = Done s' b [].
Proof.
  intros Hc Hbody. revert x Hc.
  induction n as [| k IH]; intros x Hc s.
  - rewrite (clearsIn_zero x Hc). exists s. reflexivity.
  - cbn [forBits]. destruct (Z.eqb_spec x 0) as [Hz | Hz].
    + exists s. reflexivity.
    + destruct (Hbody (TrailingZeros64 x) s (tz_range x (proj1 Hc) Hz))
        as [s1 H1].
      destruct (IH (clearLowest x) (clearsIn_step k x Hc Hz) s1) as [s2 H2].
      exists s2. unfold bind. rewrite H1, H2. reflexivity.
Qed.

#[global] Opaque bitsOf.

(* ------------------------------------------------------------------ *)
(** ** Runs of board methods *)

Lemma bind_pure {A B} (c : M A) (k : A -> M B) b a :
  pureRun c b a -> bind c k b = k a b.
Proof.
  unfold pureRun, bind. intros ->. destruct (k a b); reflexivity.
Qed.

Lemma bind_run {A B} (c : M A) (k : A -> M B) b a b1 w1 r b2 w2 :
  c b = Done a b1 w1 -> k a b1 = Done r b2 w2 ->
  bind c k b = Done r b2 (w1 ++ w2).
Proof. unfold bind. intros -> ->. reflexivity. Qed.

Lemma runsTo_bind {A B} (c : M A) (k : A -> M B) b a b1 w1 b2 w2 :
  c b = Done a b1 w1 -> runsTo (k a) b1 b2 w2 ->
  runsTo (bind c k) b b2 (w1 ++ w2).
Proof.
  intros Hc [r Hr]. exists r. apply (bind_run c k b a b1 w1 r b2 w2 Hc Hr).
Qed.

Lemma runsTo_pure {A B} (c : M A) (k : A -> M B) b a b2 w2 :
  pureRun c b a -> runsTo (k a) b b2 w2 -> runsTo (bind c k) b b2 w2.
Proof.
  intros Hc [r Hr]. exists r. rewrite (bind_pure c k b a Hc). exact Hr.
Qed.

Lemma runsTo_ret {A} (a : A) b : runsTo (ret a) b b [].
Proof. exists a. reflexivity. Qed.

Lemma returns_ret {A} (a : A) b : returnsOn (ret a) b.
Proof. exists a. reflexivity. Qed.

Lemma returns_bind {A B} (c : M A) (k : A -> M B) b :
  returnsOn c b -> (forall a, returnsOn (k a) b) -> returnsOn (bind c k) b.
Proof.
  intros [a Ha] Hk. destruct (Hk a) as [r Hr].
  exists r. unfold pureRun. rewrite (bind_pure c k b a Ha). exact Hr.
Qed.

Lemma returns_bind_at {A B} (c : M A) (k : A -> M B) b a :
  pureRun c b a -> returnsOn (k a) b -> returnsOn (bind c k) b.
Proof.
  intros Ha [r Hr].
  exists r. unfold pureRun. rewrite (bind_pure c k b a Ha). exact Hr.
Qed.

Lemma returns_if {A} (x : bool) (c d : M A) b :
  returnsOn c b -> returnsOn d b -> returnsOn (if x then c else d) b.
Proof. destruct x; auto. Qed.

Lemma getBoard_pure b : pureRun getBoard b b.
Proof. reflexivity. Qed.

Lemma loadSide_pure side b : pureRun (loadSide side) b (sideOf side b).
Proof. reflexivity. Qed.

Lemma storeKings_run side v b :
  storeKings side v b
  = Done tt (withSide side (setKings (sideOf side b) v) b)
         [StoreKings side v].
Proof. reflexivity. Qed.

Lemma storeAll_run side v b :
  storeAll side v b
  = Done tt (withSide side (setAll (sideOf side b) v) b) [StoreAll side v].
Proof. reflexivity. Qed.

Lemma readOnly_ret {A} (a : A) : readOnly (ret a).
Proof. intros b. simpl. auto. Qed.

Lemma readOnly_getBoard : readOnly getBoard.
Proof. intros b. simpl. auto. Qed.

Lemma readOnly_index {A} (l : list A) i : readOnly (index l i).
Proof.
  intros b. unfold index. destruct (i <? 0); [exact I |].
  destruct (nth_error l (Z.to_nat i)); simpl; auto.
Qed.

Lemma readOnly_bind {A B} (c : M A) (k : A -> M B) :
  readOnly c -> (forall a, readOnly (k a)) -> readOnly (bind c k).
Proof.
  intros Hc Hk b. unfold bind. specialize (Hc b).
  destruct (c b) as [a b1 w1 | |]; try exact Hc.
  destruct Hc as [-> ->]. specialize (Hk a b).
  destruct (k a b) as [r b2 w2 | |]; exact Hk.
Qed.

Lemma readOnly_if {A} (x : bool) (c d : M A) :
  readOnly c -> readOnly d -> readOnly (if x then c else d).
Proof. destruct x; auto. Qed.

(** *** Table reads *)

Lemma has64_nth {A} (l : list A) i :
  has64 l = true -> 0 <= i < 64 -> exists v, nth_error l (Z.to_nat i) = Some v.
Proof.
  unfold has64. intros Hl Hi. apply Nat.eqb_eq in Hl.
  destruct (nth_error l (Z.to_nat i)) as [v |] eqn:E; [eauto |].
  apply nth_error_None in E. lia.
Qed.

Lemma index_pure {A} (l : list A) i v b :
  0 <= i -> nth_error l (Z.to_nat i) = Some v -> pureRun (index l i) b v.
Proof.
  intros Hi E. unfold pureRun, index.
  destruct (Z.ltb_spec i 0); [lia |]. rewrite E. reflexivity.
Qed.

Lemma index_returns {A} (l : list A) i b :
  has64 l = true -> 0 <= i < 64 -> returnsOn (index l i) b.
Proof.
  intros Hl Hi. destruct (has64_nth l i Hl Hi) as [v Hv].
  exists v. apply index_pure; [lia | exact Hv].
Qed.

Lemma combine_nth {A B} (l : list A) (m : list B) n a c :
  nth_error l n = Some a -> nth_error m n = Some c -> In (a, c) (combine l m).
Proof.
  revert l m. induction n as [| k IH]; intros [| x l] [| y m] Ha Hc;
    simpl in *; try discriminate.
  - inversion Ha; inversion Hc; subst. left. reflexivity.
  - right. apply (IH l m); assumption.
Qed.

Lemma hash_bound x y sh :
  0 <= sh -> 0 <= shr64 (mul64 x y) sh <= Z.shiftr max64 sh.
Proof.
  intros Hsh. unfold shr64.
  pose proof (wrap64_is64 (x * y)) as Hw. unfold is64 in Hw.
  fold (mul64 x y) in Hw. rewrite pow64 in Hw.
  rewrite !Z.shiftr_div_pow2 by exact Hsh.
  assert (Hp : 0 < 2 ^ sh) by (apply Z.pow_pos_nonneg; lia).
  split.
  - apply Z.div_pos; lia.
  - apply Z.div_le_mono; [exact Hp |].
    unfold max64. rewrite Z.ones_equiv, pow64. lia.
Qed.

Lemma magicLookup_returns masks numbers shifts moves sq occ b :
  has64 masks = true -> has64 numbers = true -> has64 shifts = true ->
  has64 moves = true -> rowsSized shifts moves = true ->
  0 <= sq < 64 ->
  returnsOn (magicLookup masks numbers shifts moves sq occ) b.
Proof.
  intros Hm Hn Hs Hr Hsz Hsq. unfold magicLookup.
  destruct (has64_nth shifts sq Hs Hsq) as [sh Hsh].
  destruct (has64_nth moves sq Hr Hsq) as [row Hrow].
  apply returns_bind; [apply index_returns; assumption | intros mask].
  apply returns_bind; [apply index_returns; assumption | intros number].
  apply (returns_bind_at _ _ b sh); [apply index_pure; [lia | exact Hsh] |].
  apply (returns_bind_at _ _ b row); [apply index_pure; [lia | exact Hrow] |].
  unfold rowsSized in Hsz. rewrite forallb_forall in Hsz.
  specialize (Hsz (sh, row) (combine_nth _ _ _ _ _ Hsh Hrow)).
  simpl in Hsz. apply andb_true_iff in Hsz. destruct Hsz as [H0 Hlen].
  apply Z.leb_le in H0. apply Z.ltb_lt in Hlen.
  pose proof (hash_bound (Z.land mask occ) number sh H0) as Hb.
  set (i := shr64 (mul64 (Z.land mask occ) number) sh) in *.
  destruct (nth_error row (Z.to_nat i)) as [v |] eqn:E.
  - exists v. apply index_pure; [lia | exact E].
  - apply nth_error_None in E. lia.
Qed.

(* ------------------------------------------------------------------ *)
(** ** The attack oracle reads the board and returns *)

Section OracleFacts.

Variable T : Tables.

Ltac read_only :=
  repeat first
    [ progress cbv zeta
    | apply readOnly_ret
    | apply readOnly_getBoard
    | apply readOnly_index
    | apply readOnly_if
    | apply readOnly_bind; [| intros ?] ].

Lemma magicLookup_readOnly masks numbers shifts moves sq occ :
  readOnly (magicLookup masks numbers shifts moves sq occ).
Proof. unfold magicLookup. read_only. Qed.

Lemma underDirectAttack_readOnly byBlack origin :
  readOnly (underDirectAttack T byBlack origin).
Proof.
  unfold underDirectAttack, bishopLookup, rookLookup.
  repeat first [ apply magicLookup_readOnly | progress read_only ].
Qed.

Lemma anyUnderDirectAttack_readOnly byBlack squares :
  readOnly (anyUnderDirectAttack T byBlack squares).
Proof.
  induction squares as [| v rest IH]; simpl anyUnderDirectAttack.
  - apply readOnly_ret.
  - apply readOnly_bind; [apply underDirectAttack_readOnly | intros hit].
    apply readOnly_if; [apply readOnly_ret | exact IH].
Qed.

Hypothesis sized : tablesSized T.

Lemma sized_facts :
  (has64 (knightMasks T) = true /\ has64 (kingMasks T) = true) /\
  (has64 (magicRookBlockerMasks T) = true /\ has64 (magicNumberRook T) = true /\
   has64 (magicRookShifts T) = true /\ has64 (magicMovesRook T) = true /\
   rowsSized (magicRookShifts T) (magicMovesRook T) = true) /\
  (has64 (magicBishopBlockerMasks T) = true /\
   has64 (magicNumberBishop T) = true /\
   has64 (magicBishopShifts T) = true /\ has64 (magicMovesBishop T) = true /\
   rowsSized (magicBishopShifts T) (magicMovesBishop T) = true).
Proof.
  pose proof sized as H. unfold tablesSized, tablesSizedb in H.
  rewrite !andb_true_iff in H. tauto.
Qed.

Lemma rookLookup_returns sq occ b :
  0 <= sq < 64 -> returnsOn (rookLookup T sq occ) b.
Proof.
  intros Hsq. destruct sized_facts as [_ [[? [? [? [? ?]]]] _]].
  apply magicLookup_returns; assumption.
Qed.

Lemma bishopLookup_returns sq occ b :
  0 <= sq < 64 -> returnsOn (bishopLookup T sq occ) b.
Proof.
  intros Hsq. destruct sized_facts as [_ [_ [? [? [? [? ?]]]]]].
  apply magicLookup_returns; assumption.
Qed.

Lemma knightMask_returns sq b :
  0 <= sq < 64 -> returnsOn (index (knightMasks T) sq) b.
Proof.
  intros Hsq. destruct sized_facts as [[? ?] _].
  apply index_returns; assumption.
Qed.

Lemma kingMask_returns sq b :
  0 <= sq < 64 -> returnsOn (index (kingMasks T) sq) b.
Proof.
  intros Hsq. destruct sized_facts as [[? ?] _].
  apply index_returns; assumption.
Qed.

Ltac returns :=
  repeat first
    [ progress cbv zeta
    | apply returns_ret
    | apply returns_if
    | apply knightMask_returns; assumption
    | apply kingMask_returns; assumption
    | apply rookLookup_returns; assumption
    | apply bishopLookup_returns; assumption
    | apply returns_bind; [| intros ?] ].

Lemma underDirectAttack_returns byBlack origin b :
  0 <= origin < 64 -> returnsOn (underDirectAttack T byBlack origin) b.
Proof.
  intros Hsq. unfold underDirectAttack.
  apply (returns_bind_at _ _ b b (getBoard_pure b)).
  returns.
Qed.

Lemma anyUnderDirectAttack_returns byBlack squares b :
  Forall (fun v => 0 <= v < 64) squares ->
  returnsOn (anyUnderDirectAttack T byBlack squares) b.
Proof.
  induction 1 as [| v rest Hv Hrest IH]; simpl anyUnderDirectAttack.
  - apply returns_ret.
  - apply returns_bind; [apply underDirectAttack_returns; exact Hv |].
    intros hit. apply returns_if; [apply returns_ret | exact IH].
Qed.

Lemma castleCheck_returns rights clear byBlack squares b :
  Forall (fun v => 0 <= v < 64) squares ->
  returnsOn (castleCheck T rights clear byBlack squares) b.
Proof.
  intros Hs. unfold castleCheck. apply returns_if; [| apply returns_ret].
  apply returns_bind; [apply anyUnderDirectAttack_returns; exact Hs |].
  intros hit. apply returns_ret.
Qed.

End OracleFacts.

(* ------------------------------------------------------------------ *)
(** ** What the pawn generators append *)

Lemma promoteLoop_app move ml :
  promoteLoop move ml
  = ml ++ map (mkMove (mfrom move) (mto move)) promotionPieces.
Proof.
  unfold promoteLoop. simpl. rewrite <- !app_assoc. reflexivity.
Qed.

Lemma Square_bit x t : In t (bitsOf x) -> Square t = t.
Proof.
  intros Ht. apply bitsOf_In in Ht. apply wrap8_small. lia.
Qed.

Lemma pawnPushBitboards_pure b :
  pureRun pawnPushBitboards b (pushBoards b).
Proof.
  unfold pureRun, pushBoards, pawnPushBitboards.
  rewrite (bind_pure getBoard _ b b (getBoard_pure b)).
  destruct (wtomove b); reflexivity.
Qed.

Lemma pawnCaptureBitboards_pure b :
  pureRun pawnCaptureBitboards b (captureBoards b).
Proof.
  unfold pureRun, captureBoards, pawnCaptureBitboards.
  rewrite (bind_pure getBoard _ b b (getBoard_pure b)).
  destruct (wtomove b); reflexivity.
Qed.

Lemma pushBoards_is64 b :
  is64 (fst (pushBoards b)) /\ is64 (snd (pushBoards b)).
Proof.
  unfold pushBoards, pawnPushBitboards.
  rewrite (bind_pure getBoard _ b b (getBoard_pure b)).
  destruct (wtomove b); cbn [fst snd]; split;
    apply land_is64_r, land_is64_r, not64_is64.
Qed.

Lemma captureBoards_is64 b :
  is64 (fst (captureBoards b)) /\ is64 (snd (captureBoards b)).
Proof.
  unfold captureBoards, pawnCaptureBitboards.
  rewrite (bind_pure getBoard _ b b (getBoard_pure b)).
  destruct (wtomove b); cbn [fst snd]; split;
    apply land_is64_l, land_is64_r; unfold is64; rewrite pow64; lia.
Qed.

Lemma pawnPushes_run ml b :
  pawnPushes ml b = Done (ml ++ pushList b) b [].
Proof.
  unfold pawnPushes.
  rewrite (bind_pure _ _ b _ (pawnPushBitboards_pure b)).
  destruct (pushBoards_is64 b) as [H1 H2].
  unfold pushList, singlePushes, doublePushes.
  destruct (pushBoards b) as [targets doubleTargets]. simpl fst in *.
  simpl snd in *.
  rewrite (bind_pure getBoard _ b b (getBoard_pure b)). cbv zeta.
  erewrite bind_pure.
  2: { apply forBits_append with
         (g := fun t => emit b (Square (t + stepBack b)) t).
       - apply clearsIn_word. exact H1.
       - intros t s Ht. rewrite (Square_bit _ t Ht).
         unfold emit, farRank, stepBack.
         destruct (wtomove b);
           match goal with |- context [if ?c then _ else _] => destruct c end;
           unfold ret; rewrite ?promoteLoop_app; reflexivity. }
  rewrite (forBits_append _ _ _
             (fun t => [mkMove (Square (t + 2 * stepBack b)) t Nothing])).
  - rewrite app_assoc. reflexivity.
  - apply clearsIn_word. exact H2.
  - intros t s Ht. rewrite (Square_bit _ t Ht).
    unfold stepBack. destruct (wtomove b); reflexivity.
Qed.

Lemma pawnCapturesDir_run dir board ml b :
  is64 board ->
  pawnCapturesDir dir board ml b = Done (ml ++ capturesDir b dir board) b [].
Proof.
  intros Hb. unfold pawnCapturesDir, capturesDir.
  rewrite (bind_pure getBoard _ b b (getBoard_pure b)).
  apply forBits_append.
  - apply clearsIn_word. exact Hb.
  - intros t s Ht. rewrite (Square_bit _ t Ht).
    unfold emit, farRank, captureBack. cbv zeta.
    destruct (wtomove b);
      match goal with |- context [if ?c then _ else _] => destruct c end;
      unfold ret; rewrite ?promoteLoop_app; simpl mfrom; simpl mto;
      rewrite ?Z.add_opp_r; reflexivity.
Qed.

Lemma pawnCaptures_run ml b :
  pawnCaptures ml b = Done (ml ++ captureList b) b [].
Proof.
  unfold pawnCaptures.
  rewrite (bind_pure _ _ b _ (pawnCaptureBitboards_pure b)).
  destruct (captureBoards_is64 b) as [H1 H2].
  unfold captureList, firstCaptures, secondCaptures.
  destruct (captureBoards b) as [east west]. simpl fst in *. simpl snd in *.
  rewrite (bind_pure getBoard _ b b (getBoard_pure b)). cbv zeta.
  erewrite bind_pure.
  2: { apply pawnCapturesDir_run. destruct (wtomove b); assumption. }
  rewrite pawnCapturesDir_run by (destruct (wtomove b); assumption).
  rewrite app_assoc. reflexivity.
Qed.

(* ------------------------------------------------------------------ *)
(** ** Runs of the piece generators *)

Section GeneratorFacts.

Variable T : Tables.
Hypothesis sized : tablesSized T.

Lemma genMovesFromTargets_returns ml origin targets b :
  is64 targets -> returnsOn (genMovesFromTargets ml origin targets) b.
Proof.
  intros Ht. unfold genMovesFromTargets.
  apply forBits_pure; [apply clearsIn_word; exact Ht |].
  intros t s _. eexists. reflexivity.
Qed.

Lemma knightMoves_returns ml b :
  boardWords b -> returnsOn (knightMoves T ml) b.
Proof.
  intros [Hw [Hb _]]. unfold knightMoves.
  apply (returns_bind_at _ _ b b (getBoard_pure b)). cbv zeta.
  apply forBits_pure.
  - apply clearsIn_word. destruct (wtomove b); [apply Hw | apply Hb].
  - intros t s Ht.
    match goal with |- exists s', ?c b = Done s' b [] =>
      change (returnsOn c b) end.
    apply returns_bind; [apply knightMask_returns; assumption | intros mask].
    apply genMovesFromTargets_returns.
    apply land_is64_r. destruct (wtomove b); apply not64_is64.
Qed.

Lemma rookMoves_returns ml b :
  boardWords b -> returnsOn (rookMoves T ml) b.
Proof.
  intros [Hw [Hb _]]. unfold rookMoves.
  apply (returns_bind_at _ _ b b (getBoard_pure b)). cbv zeta.
  apply forBits_pure.
  - apply clearsIn_word. destruct (wtomove b); [apply Hw | apply Hb].
  - intros t s Ht.
    match goal with |- exists s', ?c b = Done s' b [] =>
      change (returnsOn c b) end.
    apply returns_bind; [apply rookLookup_returns; assumption | intros mv].
    apply genMovesFromTargets_returns, land_is64_r, not64_is64.
Qed.

Lemma bishopMoves_returns ml b :
  boardWords b -> returnsOn (bishopMoves T ml) b.
Proof.
  intros [Hw [Hb _]]. unfold bishopMoves.
  apply (returns_bind_at _ _ b b (getBoard_pure b)). cbv zeta.
  apply forBits_pure.
  - apply clearsIn_word. destruct (wtomove b); [apply Hw | apply Hb].
  - intros t s Ht.
    match goal with |- exists s', ?c b = Done s' b [] =>
      change (returnsOn c b) end.
    apply returns_bind; [apply bishopLookup_returns; assumption | intros mv].
    apply genMovesFromTargets_returns, land_is64_r, not64_is64.
Qed.

Lemma queenMoves_returns ml b :
  boardWords b -> returnsOn (queenMoves T ml) b.
Proof.
  intros [Hw [Hb _]]. unfold queenMoves.
  apply (returns_bind_at _ _ b b (getBoard_pure b)). cbv zeta.
  apply forBits_pure.
  - apply clearsIn_word. destruct (wtomove b); [apply Hw | apply Hb].
  - intros t s Ht.
    match goal with |- exists s', ?c b = Done s' b [] =>
      change (returnsOn c b) end.
    apply returns_bind; [apply bishopLookup_returns; assumption | intros dg].
    apply returns_bind;
      [apply genMovesFromTargets_returns, land_is64_r, not64_is64 |
       intros ml1].
    apply returns_bind; [apply rookLookup_returns; assumption | intros og].
    apply genMovesFromTargets_returns, land_is64_r, not64_is64.
Qed.

Lemma kingSquare_range b :
  boardWords b -> kings (sideOf (wtomove b) b) <> 0 ->
  0 <= kingSquare b < 64.
Proof.
  intros [Hw [Hb _]] Hk. unfold kingSquare.
  assert (Hr : 0 <= TrailingZeros64 (kings (sideOf (wtomove b) b)) < 64).
  { apply tz_range; [| exact Hk].
    destruct (wtomove b); [apply Hw | apply Hb]. }
  rewrite wrap8_small; lia.
Qed.

Lemma kingProbe_returns (k : Z) target ml b :
  0 <= target < 64 ->
  returnsOn
    (cur <- getBoard ;;
     hit <- underDirectAttack T (wtomove cur) (wrap8 target) ;;
     if hit then ret ml
     else ret (ml ++ [Setto (Setfrom zeroMove (Square k)) (Square target)]))
    b.
Proof.
  intros Ht.
  apply (returns_bind_at _ _ b b (getBoard_pure b)).
  apply returns_bind.
  - apply underDirectAttack_returns; [exact sized |].
    rewrite wrap8_small; lia.
  - intros hit. apply returns_if; apply returns_ret.
Qed.

Lemma kingMoves_run ml b :
  boardWords b -> kings (sideOf (wtomove b) b) <> 0 ->
  runsTo (kingMoves T ml) b (kingFinal b) (kingStores b).
Proof.
  intros Hw Hk. pose proof (kingSquare_range b Hw Hk) as Hsq.
  unfold kingMoves.
  apply (runsTo_pure _ _ b b _ _ (getBoard_pure b)). cbv zeta.
  assert (Hall : forall l : list Z,
             forallb (fun v => (0 <=? v) && (v <? 64)) l = true ->
             Forall (fun v => 0 <= v < 64) l).
  { intros l Hl. apply Forall_forall. intros v Hv.
    rewrite forallb_forall in Hl. specialize (Hl v Hv). lia. }
  assert (Hq : forall (r c : bool) byBlack l,
             forallb (fun v => (0 <=? v) && (v <? 64)) l = true ->
             returnsOn (castleCheck T r c byBlack l) b)
    by (intros; apply castleCheck_returns, Hall; assumption).
  assert (Hks : (if wtomove b
                 then wrap8 (TrailingZeros64 (kings (white b)))
                 else wrap8 (TrailingZeros64 (kings (black b))))
                = kingSquare b)
    by (unfold kingSquare, sideOf; destruct (wtomove b); reflexivity).
  rewrite !Hks. clear Hks.
  match goal with |- runsTo (bind ?c _) _ _ _ =>
    assert (Hcq : returnsOn c b)
      by (destruct (wtomove b); apply Hq; reflexivity)
  end.
  destruct Hcq as [cq Hcq]. apply (runsTo_pure _ _ b cq _ _ Hcq).
  match goal with |- runsTo (bind ?c _) _ _ _ =>
    assert (Hck : returnsOn c b)
      by (destruct (wtomove b); apply Hq; reflexivity)
  end.
  destruct Hck as [ck Hck]. apply (runsTo_pure _ _ b ck _ _ Hck).
  clear Hcq Hck Hq Hall.
  unfold kingFinal, kingLifted, kingStores. cbv zeta.
  set (k := kingSquare b) in *.
  set (side := wtomove b).
  set (b1 := withSide side (setKings (sideOf side b) 0) b).
  set (lifted := Z.land (all (sideOf side b1)) (not64 (bit k))).
  set (b2 := withSide side (setAll (sideOf side b1) lifted) b1).
  set (old := kings (sideOf side b)).
  set (b3 := withSide side (setKings (sideOf side b2) old) b2).
  assert (Hl : Z.land (all (sideOf side b)) (not64 (bit k)) = lifted)
    by (unfold lifted, b1; destruct side; reflexivity).
  rewrite Hl.
  assert (Hl3 : all (sideOf side b3) = lifted)
    by (unfold b3, b2; destruct side; reflexivity).
  rewrite Hl3.
  apply (runsTo_pure _ _ b _ _ _ (loadSide_pure side b)).
  apply (runsTo_bind _ _ b tt b1 [StoreKings side 0] _
           [StoreAll side lifted; StoreKings side old;
            StoreAll side (Z.lor lifted (bit k))]
           (storeKings_run side 0 b)).
  apply (runsTo_pure _ _ b1 _ _ _ (loadSide_pure side b1)).
  apply (runsTo_bind _ _ b1 tt b2 [StoreAll side lifted] _
           [StoreKings side old; StoreAll side (Z.lor lifted (bit k))]
           (storeAll_run side lifted b1)).
  destruct (kingMask_returns T sized k b2 Hsq) as [gmask Hg].
  apply (runsTo_pure _ _ b2 gmask _ _ Hg).
  match goal with |- runsTo (bind (forBits ?n ?x ?body ?s) _) _ _ _ =>
    assert (Hloop : returnsOn (forBits n x body s) b2)
  end.
  { apply forBits_pure.
    - apply clearsIn_word, land_is64_r.
      destruct side; apply not64_is64.
    - intros t s Ht. apply (kingProbe_returns k t s b2 Ht). }
  destruct Hloop as [ml2 Hloop]. apply (runsTo_pure _ _ b2 ml2 _ _ Hloop).
  apply (runsTo_bind _ _ b2 tt b3 [StoreKings side old] _
           [StoreAll side (Z.lor lifted (bit k))]
           (storeKings_run side old b2)).
  apply (runsTo_pure _ _ b3 _ _ _ (loadSide_pure side b3)).
  rewrite Hl3.
  apply (runsTo_bind _ _ b3 tt _ [StoreAll side (Z.lor lifted (bit k))] _
           [] (storeAll_run side (Z.lor lifted (bit k)) b3)).
  apply runsTo_ret.
Qed.

Lemma kingFinal_words b : boardWords b -> boardWords (kingFinal b).
Proof.
  intros [Hw [Hb He]]. unfold kingFinal, kingLifted. cbv zeta.
  assert (Hall : forall a k,
             is64 (Z.lor (Z.land a (not64 (bit k))) (bit k))).
  { intros a k. apply lor_is64; [| apply shl64_is64].
    apply land_is64_r, not64_is64. }
  unfold boardWords, sideWords in *.
  destruct Hw as (? & ? & ? & ? & ? & ? & ?).
  destruct Hb as (? & ? & ? & ? & ? & ? & ?).
  destruct (wtomove b); simpl;
    repeat match goal with
           | |- 0 <= _ < _ => exact He
           | |- is64 _ => first [assumption | apply Hall]
           | |- _ /\ _ => split
           end.
Qed.

(** The whole generator returns whenever the mover has a king bit: the
    pawn and knight generators leave the board alone, the king generator
    performs its four stores, and the sliding generators run on the board
    it leaves. *)
Lemma GenerateLegalMoves_run b :
  boardWords b -> kings (sideOf (wtomove b) b) <> 0 ->
  runsTo (GenerateLegalMoves T) b (kingFinal b) (kingStores b).
Proof.
  intros Hw Hk. unfold GenerateLegalMoves.
  apply (runsTo_pure _ _ b _ _ _ (pawnPushes_run [] b)).
  apply (runsTo_pure _ _ b _ _ _ (pawnCaptures_run _ b)).
  destruct (knightMoves_returns ([] ++ pushList b ++ captureList b) b Hw)
    as [ml1 H1].
  rewrite app_assoc in H1.
  apply (runsTo_pure _ _ b ml1 _ _ H1).
  destruct (kingMoves_run ml1 b Hw Hk) as [ml2 H2].
  rewrite <- (app_nil_r (kingStores b)).
  apply (runsTo_bind _ _ b ml2 _ _ _ _ H2).
  pose proof (kingFinal_words b Hw) as Hw'.
  destruct (rookMoves_returns ml2 _ Hw') as [ml3 H3].
  apply (runsTo_pure _ _ _ ml3 _ _ H3).
  destruct (bishopMoves_returns ml3 _ Hw') as [ml4 H4].
  apply (runsTo_pure _ _ _ ml4 _ _ H4).
  destruct (queenMoves_returns ml4 _ Hw') as [ml5 H5].
  apply (runsTo_pure _ _ _ ml5 _ _ H5).
  apply runsTo_ret.
Qed.

End GeneratorFacts.

(** *** Well-formed boards come back unchanged from the king generator *)

Lemma tz_pow2 k : 0 <= k -> TrailingZeros64 (2 ^ k) = k.
Proof.
  intros Hk.
  assert (Hp : 0 < 2 ^ k) by (apply Z.pow_pos_nonneg; lia).
  pose proof (tz_set _ Hp) as Hs.
  rewrite Z.pow2_bits_eqb in Hs by exact Hk.
  apply Z.eqb_eq in Hs. symmetry. exact Hs.
Qed.

Lemma restore_bit a k :
  is64 a -> 0 <= k < 64 -> Z.testbit a k = true ->
  Z.lor (Z.land a (not64 (bit k))) (bit k) = a.
Proof.
  intros Ha Hk Hset. apply Z.bits_inj'. intros i Hi.
  rewrite Z.lor_spec, Z.land_spec.
  destruct (Z.ltb_spec i 64) as [Hlt | Hge].
  - rewrite not64_bit, bit_testbit by lia.
    destruct (Z.eqb_spec i k) as [-> | Hne].
    + rewrite Hset. reflexivity.
    + rewrite andb_true_r, orb_false_r. reflexivity.
  - assert (Hout : forall x, is64 x -> Z.testbit x i = false).
    { intros x Hx. destruct (Z.testbit x i) eqn:E; [| reflexivity].
      pose proof (is64_testbit x i Hx E). lia. }
    rewrite (Hout a Ha), (Hout (bit k) (shl64_is64 1 k)). reflexivity.
Qed.

Lemma oneKing_square s :
  oneKing s -> exists k, 0 <= k < 64 /\ kings s = 2 ^ k /\
                         wrap8 (TrailingZeros64 (kings s)) = k.
Proof.
  intros [k [Hk E]]. exists k. split; [exact Hk |]. split; [exact E |].
  rewrite E, tz_pow2 by lia. apply wrap8_small. lia.
Qed.

Lemma aggregate_king s k :
  0 <= k -> kings s = 2 ^ k -> Z.testbit (aggregate s) k = true.
Proof.
  intros Hk E. unfold aggregate. rewrite !Z.lor_spec, E.
  rewrite Z.pow2_bits_true by exact Hk. rewrite !orb_true_r. reflexivity.
Qed.

Lemma wellFormed_king b :
  wellFormed b -> kings (sideOf (wtomove b) b) <> 0.
Proof.
  intros Hwf. destruct (wtomove b); simpl;
    [destruct (wf_white_king b Hwf) as [k [Hk E]]
    | destruct (wf_black_king b Hwf) as [k [Hk E]]];
    rewrite E; apply Z.pow_nonzero; lia.
Qed.

(** The four stores amount to one update of the mover's aggregate. *)
Lemma kingFinal_eq b :
  kingFinal b
  = withSide (wtomove b)
      (setAll (sideOf (wtomove b) b)
         (Z.lor (Z.land (all (sideOf (wtomove b) b))
                        (not64 (bit (kingSquare b))))
                (bit (kingSquare b))))
      b.
Proof.
  unfold kingFinal, kingLifted. cbv zeta. generalize (kingSquare b) as k.
  intros k. destruct b as [w bl side ep c1 c2 c3 c4].
  destruct w as [wp wb wn wr wq wk wa], bl as [bp bb bn br bq bk ba].
  destruct side; reflexivity.
Qed.

Lemma withSide_same b :
  withSide (wtomove b)
    (setAll (sideOf (wtomove b) b) (all (sideOf (wtomove b) b))) b = b.
Proof.
  destruct b as [w bl side ep c1 c2 c3 c4].
  destruct w as [wp wb wn wr wq wk wa], bl as [bp bb bn br bq bk ba].
  destruct side; reflexivity.
Qed.

Lemma kingFinal_wellFormed b : wellFormed b -> kingFinal b = b.
Proof.
  intros Hwf. rewrite kingFinal_eq.
  assert (Ha : Z.lor (Z.land (all (sideOf (wtomove b) b))
                             (not64 (bit (kingSquare b))))
                     (bit (kingSquare b))
               = all (sideOf (wtomove b) b));
    [| rewrite Ha; apply withSide_same].
  destruct (wf_words b Hwf) as [Hw [Hb _]].
  unfold kingSquare. destruct (wtomove b); cbn [sideOf].
  - destruct (oneKing_square _ (wf_white_king b Hwf)) as [k [Hk [E S]]].
    rewrite S. apply restore_bit; [apply Hw | exact Hk |].
    rewrite (wf_white_all b Hwf). apply aggregate_king; [lia | exact E].
  - destruct (oneKing_square _ (wf_black_king b Hwf)) as [k [Hk [E S]]].
    rewrite S. apply restore_bit; [apply Hb | exact Hk |].
    rewrite (wf_black_all b Hwf). apply aggregate_king; [lia | exact E].
Qed.

(* ------------------------------------------------------------------ *)
(** ** The concrete positions and tables *)

Ltac well_formed kw kb :=
  constructor;
  [ unfold boardWords, sideWords, is64; cbn; rewrite ?pow64; lia
  | reflexivity | reflexivity | reflexivity
  | exists kw; split; [lia | reflexivity]
  | exists kb; split; [lia | reflexivity]
  | cbn; lia ].

Lemma startBoard_wellFormed : wellFormed startBoard.
Proof. well_formed 4 60. Qed.

Lemma pawnH2Board_wellFormed : wellFormed pawnH2Board.
Proof. well_formed 4 60. Qed.

Lemma enPassantBoard_wellFormed : wellFormed enPassantBoard.
Proof. well_formed 4 60. Qed.

Lemma promotionBoard_wellFormed : wellFormed promotionBoard.
Proof. well_formed 4 60. Qed.

Lemma rookA8Board_wellFormed : wellFormed rookA8Board.
Proof. well_formed 4 60. Qed.


Lemma kinglessBoard_words : boardWords kinglessBoard.
Proof. unfold boardWords, sideWords, is64; cbn; rewrite ?pow64; lia. Qed.

(** The tables built from the rules meet the sizing contract. *)
Lemma rules_tables_sized : tablesSized Rules.tables.
Proof. vm_compute. reflexivity. Qed.

(** *** Runs on the concrete positions *)

(** The pawns of [promotionBoard]: a7-a8 and g7-g8 by pushing, g7xh8 by
    capturing, four promotions each. *)
Example promotionBoard_pawn_moves :
  movesOf ((ml <- pawnPushes [] ;; pawnCaptures ml) promotionBoard)
  = Some [mkMove 48 56 Knight; mkMove 48 56 Bishop; mkMove 48 56 Rook;
          mkMove 48 56 Queen;
          mkMove 54 62 Knight; mkMove 54 62 Bishop; mkMove 54 62 Rook;
          mkMove 54 62 Queen;
          mkMove 54 63 Knight; mkMove 54 63 Bishop; mkMove 54 63 Rook;
          mkMove 54 63 Queen].
Proof. vm_compute. reflexivity. Qed.

(** The only capture on [enPassantBoard] is e5xd6 en passant, onto an empty
    square. *)
Example enPassantBoard_captures :
  movesOf (pawnCaptures [] enPassantBoard) = Some [mkMove 36 43 Nothing]
  /\ Z.testbit (Z.lor (all (white enPassantBoard)) (all (black enPassantBoard)))
               43 = false.
Proof. split; vm_compute; reflexivity. Qed.

(** With the king lifted off the board while the targets are probed, the
    squares e1 and e3 on the rook's ray are both refused; the board comes
    back as it was. *)
Example kingRayBoard_king_moves :
  kingMoves Rules.tables [] kingRayBoard
  = Done [mkMove 12 3 Nothing; mkMove 12 5 Nothing; mkMove 12 11 Nothing;
          mkMove 12 13 Nothing; mkMove 12 19 Nothing; mkMove 12 21 Nothing]
         kingRayBoard (kingStores kingRayBoard).
Proof. vm_compute. reflexivity. Qed.

(* ------------------------------------------------------------------ *)
(** ** Pawn captures *)

Lemma range_forall (P : Z -> bool) :
  forallb P (upFrom 0 64) = true -> forall t, 0 <= t < 64 -> P t = true.
Proof.
  intros H t Ht. rewrite forallb_forall in H. apply H.
  apply upFrom_In. change (Z.of_nat 64) with 64. lia.
Qed.

Lemma notAFile_bit t :
  0 <= t < 64 ->
  Z.testbit 0xFEFEFEFEFEFEFEFE t = negb (t mod 8 =? 0).
Proof.
  intros Ht. apply eqb_prop.
  apply (range_forall
           (fun t => eqb (Z.testbit 0xFEFEFEFEFEFEFEFE t)
                         (negb (t mod 8 =? 0))));
    [vm_compute; reflexivity | exact Ht].
Qed.

Lemma notHFile_bit t :
  0 <= t < 64 ->
  Z.testbit 0x7F7F7F7F7F7F7F7F t = negb (t mod 8 =? 7).
Proof.
  intros Ht. apply eqb_prop.
  apply (range_forall
           (fun t => eqb (Z.testbit 0x7F7F7F7F7F7F7F7F t)
                         (negb (t mod 8 =? 7))));
    [vm_compute; reflexivity | exact Ht].
Qed.

Lemma targets_bit ep opp t :
  0 <= ep -> 0 <= t < 64 ->
  Z.testbit (Z.lor (if 0 <? ep then shl64 1 ep else 0) opp) t
  = (if 0 <? ep then t =? ep else false) || Z.testbit opp t.
Proof.
  intros Hep Ht. rewrite Z.lor_spec. f_equal.
  destruct (0 <? ep).
  - apply (bit_testbit ep t Hep Ht).
  - apply Z.bits_0.
Qed.

Lemma firstCaptures_bit b t :
  0 <= enpassant b -> 0 <= t < 64 ->
  Z.testbit (firstCaptures b) t
  = Z.testbit (pawns (ours b)) (t + captureBack b 0)
    && negb (t mod 8 =? (if wtomove b then 0 else 7))
    && captureTarget b t.
Proof.
  intros Hep Ht.
  unfold firstCaptures, captureBoards, pawnCaptureBitboards, captureTarget,
    captureBack, ours, theirs.
  rewrite (bind_pure getBoard _ b b (getBoard_pure b)). cbv zeta.
  destruct (wtomove b); cbn [negb fst snd sideOf ret];
    rewrite !Z.land_spec, targets_bit by assumption.
  - rewrite shl64_bit, notAFile_bit by lia. reflexivity.
  - rewrite shr64_bit, notHFile_bit by lia. reflexivity.
Qed.

Lemma secondCaptures_bit b t :
  0 <= enpassant b -> 0 <= t < 64 ->
  Z.testbit (secondCaptures b) t
  = Z.testbit (pawns (ours b)) (t + captureBack b 1)
    && negb (t mod 8 =? (if wtomove b then 7 else 0))
    && captureTarget b t.
Proof.
  intros Hep Ht.
  unfold secondCaptures, captureBoards, pawnCaptureBitboards, captureTarget,
    captureBack, ours, theirs.
  rewrite (bind_pure getBoard _ b b (getBoard_pure b)). cbv zeta.
  destruct (wtomove b); cbn [negb fst snd sideOf ret];
    rewrite !Z.land_spec, targets_bit by assumption.
  - rewrite shl64_bit, notHFile_bit by lia. reflexivity.
  - rewrite shr64_bit, notAFile_bit by lia. reflexivity.
Qed.

Lemma captureTarget_iff b t :
  captureTarget b t = true <->
  (Z.testbit (all (theirs b)) t = true \/
   (0 < enpassant b /\ t = enpassant b)).
Proof.
  unfold captureTarget. rewrite orb_true_iff.
  destruct (Z.ltb_spec 0 (enpassant b)) as [Hp | Hn].
  - rewrite Z.eqb_eq. tauto.
  - split; [intros [H | H]; [discriminate | tauto] | intros [H | H]; [tauto | lia]].
Qed.

(** *** The moves of one origin/destination pair *)

Lemma emit_In b o t m :
  In m (emit b o t) ->
  mfrom m = o /\ mto m = t /\
  (if farRank b t then In (mpromote m) promotionPieces
   else mpromote m = Nothing).
Proof.
  unfold emit. destruct (farRank b t); simpl; intros H.
  - destruct H as [H | [H | [H | [H | []]]]]; subst m; simpl; tauto.
  - destruct H as [H | []]. subst m. simpl. tauto.
Qed.

Lemma emit_first b o t :
  exists m, In m (emit b o t) /\ mfrom m = o /\ mto m = t.
Proof.
  unfold emit. destruct (farRank b t); eexists; (split; [left; reflexivity |]);
    split; reflexivity.
Qed.

Lemma dirBoard_bit b dir t :
  dir = 0 \/ dir = 1 -> 0 <= enpassant b -> 0 <= t < 64 ->
  Z.testbit (dirBoard b dir) t
  = Z.testbit (pawns (ours b)) (t + captureBack b dir)
    && negb (t mod 8 =? edgeFile b dir)
    && captureTarget b t.
Proof.
  intros [-> | ->] Hep Ht; unfold dirBoard, edgeFile; cbn [Z.eqb].
  - apply firstCaptures_bit; assumption.
  - apply secondCaptures_bit; assumption.
Qed.

Lemma captureList_dirs b :
  captureList b
  = capturesDir b 0 (dirBoard b 0) ++ capturesDir b 1 (dirBoard b 1).
Proof. reflexivity. Qed.

Lemma capturesDir_In b dir p t :
  dir = 0 \/ dir = 1 -> 0 <= enpassant b -> is64 (pawns (ours b)) ->
  (exists m, In m (capturesDir b dir (dirBoard b dir))
             /\ mfrom m = p /\ mto m = t)
  <-> (0 <= t < 64 /\ p = t + captureBack b dir /\
       Z.testbit (pawns (ours b)) p = true /\
       t mod 8 <> edgeFile b dir /\ captureTarget b t = true).
Proof.
  intros Hdir Hep Hp. unfold capturesDir. split.
  - intros [m [Hin [Hf Ht]]].
    apply in_flat_map in Hin. destruct Hin as [t' [Hbit Hm]].
    apply emit_In in Hm. destruct Hm as [Hf' [Ht' _]].
    apply bitsOf_In in Hbit. destruct Hbit as [Hr Hbit].
    rewrite (dirBoard_bit b dir t' Hdir Hep Hr) in Hbit.
    apply andb_true_iff in Hbit. destruct Hbit as [Hbit Htg].
    apply andb_true_iff in Hbit. destruct Hbit as [Hpawn Hfile].
    apply negb_true_iff, Z.eqb_neq in Hfile.
    pose proof (is64_testbit _ _ Hp Hpawn) as Hpr.
    unfold Square in Hf'. rewrite wrap8_small in Hf' by lia.
    subst p t. rewrite Hf', Ht'. tauto.
  - intros [Ht [Hpt [Hpawn [Hfile Htg]]]].
    destruct (emit_first b (Square (t + captureBack b dir)) t)
      as [m [Hin [Hf Hto]]].
    pose proof (is64_testbit _ _ Hp Hpawn) as Hpr.
    exists m. split; [| split; [| exact Hto]].
    + apply in_flat_map. exists t. split; [| exact Hin].
      apply bitsOf_In. split; [exact Ht |].
      rewrite (dirBoard_bit b dir t Hdir Hep Ht), <- Hpt, Hpawn, Htg.
      apply Z.eqb_neq in Hfile. rewrite Hfile. reflexivity.
    + rewrite Hf, <- Hpt. unfold Square. apply wrap8_small. lia.
Qed.

(** Diagonal-forward neighbours are exactly the two capture offsets, each
    away from the file its shift would wrap onto. *)
Lemma diagonalForward_offsets b p t :
  0 <= p < 64 -> 0 <= t < 64 ->
  diagonalForward b p t <->
  (p = t + captureBack b 0 /\ t mod 8 <> edgeFile b 0) \/
  (p = t + captureBack b 1 /\ t mod 8 <> edgeFile b 1).
Proof.
  intros Hp Ht.
  unfold diagonalForward, rankOf, fileOf, forward, captureBack, edgeFile.
  destruct (wtomove b); cbn [Z.eqb];
    Z.to_euclidean_division_equations; lia.
Qed.

Lemma captureList_In b p t :
  wellFormed b ->
  (exists m, In m (captureList b) /\ mfrom m = p /\ mto m = t)
  <-> captureRule b p t.
Proof.
  intros Hwf.
  assert (Hep : 0 <= enpassant b) by (apply (wf_enpassant b Hwf)).
  assert (Hp : is64 (pawns (ours b))).
  { destruct (wf_words b Hwf) as [Hw [Hb _]].
    unfold ours. destruct (wtomove b); [apply Hw | apply Hb]. }
  pose proof (capturesDir_In b 0 p t (or_introl eq_refl) Hep Hp) as H0.
  pose proof (capturesDir_In b 1 p t (or_intror eq_refl) Hep Hp) as H1.
  rewrite captureList_dirs. unfold captureRule.
  rewrite <- captureTarget_iff.
  split.
  - intros [m [Hin Hft]]. apply in_app_or in Hin.
    destruct Hin as [Hin | Hin].
    + destruct (proj1 H0 (ex_intro _ m (conj Hin Hft)))
        as [Ht [Hpt [Hpawn [Hfile Htg]]]].
      pose proof (is64_testbit _ _ Hp Hpawn) as Hpr.
      repeat split; try assumption; try lia;
        apply (diagonalForward_offsets b p t Hpr Ht); left; tauto.
    + destruct (proj1 H1 (ex_intro _ m (conj Hin Hft)))
        as [Ht [Hpt [Hpawn [Hfile Htg]]]].
      pose proof (is64_testbit _ _ Hp Hpawn) as Hpr.
      repeat split; try assumption; try lia;
        apply (diagonalForward_offsets b p t Hpr Ht); right; tauto.
  - intros [Hpr [Ht [Hpawn [Hdiag Htg]]]].
    apply (diagonalForward_offsets b p t Hpr Ht) in Hdiag.
    destruct Hdiag as [[Hpt Hfile] | [Hpt Hfile]].
    + destruct (proj2 H0) as [m [Hin Hft]]; [tauto |].
      exists m. split; [apply in_or_app; left; exact Hin | exact Hft].
    + destruct (proj2 H1) as [m [Hin Hft]]; [tauto |].
      exists m. split; [apply in_or_app; right; exact Hin | exact Hft].
Qed.

(* ------------------------------------------------------------------ *)
(** ** Promotion fan-out *)

Lemma filter_emit_same b o t : filter (key o t) (emit b o t) = emit b o t.
Proof.
  unfold emit, key. destruct (farRank b t); cbn [map filter mfrom mto promotionPieces];
    rewrite !Z.eqb_refl; reflexivity.
Qed.

Lemma filter_emit_other b o t o' t' :
  o' <> o \/ t' <> t -> filter (key o t) (emit b o' t') = [].
Proof.
  intros H. unfold emit, key.
  assert (E : (o' =? o) && (t' =? t) = false).
  { apply andb_false_iff. rewrite !Z.eqb_neq. exact H. }
  destruct (farRank b t'); cbn [map filter mfrom mto promotionPieces];
    rewrite !E; reflexivity.
Qed.

Lemma filter_seg_miss b d L o t0 :
  (forall t, In t L -> t = t0 -> Square (t + d) <> o) ->
  filter (key o t0) (seg b d L) = [].
Proof.
  unfold seg. induction L as [| a L IH]; intros H; [reflexivity |].
  cbn [flat_map]. rewrite filter_app, IH.
  - rewrite filter_emit_other; [reflexivity |].
    destruct (Z.eq_dec a t0) as [E | E]; [left | right; exact E].
    apply H; [left; reflexivity | exact E].
  - intros t Ht. apply H. right. exact Ht.
Qed.

Lemma filter_seg_hit b d L t0 :
  NoDup L -> In t0 L ->
  filter (key (Square (t0 + d)) t0) (seg b d L) = emit b (Square (t0 + d)) t0.
Proof.
  intros Hnd. induction Hnd as [| a L Ha Hnd IH]; intros Hin; [destruct Hin |].
  unfold seg in *. cbn [flat_map]. rewrite filter_app.
  destruct (Z.eq_dec a t0) as [-> | Hne].
  - rewrite filter_emit_same.
    fold (seg b d L). rewrite filter_seg_miss; [apply app_nil_r |].
    intros t Ht ->. contradiction.
  - rewrite filter_emit_other by (right; exact Hne).
    destruct Hin as [E | Hin]; [contradiction |].
    apply IH. exact Hin.
Qed.

Lemma seg_In b d L m :
  In m (seg b d L) -> exists t, In t L /\ In m (emit b (Square (t + d)) t).
Proof. unfold seg. intros H. apply in_flat_map in H. exact H. Qed.

(** Double-push targets lie on the fourth (white) or fifth (black) rank. *)
Lemma fourthRank_bit t :
  0 <= t < 64 -> Z.testbit 0xFF000000 t = true -> 24 <= t < 32.
Proof.
  intros Ht Hb.
  pose proof (range_forall
                (fun t => implb (Z.testbit 0xFF000000 t)
                                ((24 <=? t) && (t <? 32)))
                eq_refl t Ht) as H.
  cbv beta in H. rewrite Hb in H. cbn [implb] in H. lia.
Qed.

Lemma fifthRank_bit t :
  0 <= t < 64 -> Z.testbit 0xFF00000000 t = true -> 32 <= t < 40.
Proof.
  intros Ht Hb.
  pose proof (range_forall
                (fun t => implb (Z.testbit 0xFF00000000 t)
                                ((32 <=? t) && (t <? 40)))
                eq_refl t Ht) as H.
  cbv beta in H. rewrite Hb in H. cbn [implb] in H. lia.
Qed.

Lemma doubleTarget_rank b t :
  In t (bitsOf (snd (pushBoards b))) ->
  if wtomove b then 24 <= t < 32 else 32 <= t < 40.
Proof.
  intros Hin. apply bitsOf_In in Hin. destruct Hin as [Ht Hb].
  unfold pushBoards, pawnPushBitboards in Hb.
  rewrite (bind_pure getBoard _ b b (getBoard_pure b)) in Hb.
  destruct (wtomove b); cbn [snd ret] in Hb;
    rewrite !Z.land_spec in Hb;
    apply andb_true_iff in Hb; destruct Hb as [Hb _];
    apply andb_true_iff in Hb; destruct Hb as [_ Hb].
  - apply fourthRank_bit; assumption.
  - apply fifthRank_bit; assumption.
Qed.

Lemma doublePushes_seg b :
  doublePushes b = seg b (2 * stepBack b) (bitsOf (snd (pushBoards b))).
Proof.
  unfold doublePushes, seg.
  assert (H : forall t, In t (bitsOf (snd (pushBoards b))) ->
                        farRank b t = false).
  { intros t Ht. apply doubleTarget_rank in Ht. unfold farRank.
    destruct (wtomove b); lia. }
  induction (bitsOf (snd (pushBoards b))) as [| a L IH]; [reflexivity |].
  cbn [flat_map]. rewrite IH by (intros t Ht; apply H; right; exact Ht).
  unfold emit at 2. rewrite (H a (or_introl eq_refl)). reflexivity.
Qed.

(** The pawn list as four scan loops. *)
Lemma pawnList_segs b :
  pushList b ++ captureList b
  = seg b (stepBack b) (bitsOf (fst (pushBoards b)))
    ++ seg b (2 * stepBack b) (bitsOf (snd (pushBoards b)))
    ++ seg b (captureBack b 0) (bitsOf (firstCaptures b))
    ++ seg b (captureBack b 1) (bitsOf (secondCaptures b)).
Proof.
  unfold pushList, captureList. rewrite doublePushes_seg, <- app_assoc.
  reflexivity.
Qed.

(** Origins computed with different offsets differ. *)
Ltac offsets :=
  unfold Square, wrap8, stepBack, captureBack; rewrite ?pow8;
  match goal with |- context [wtomove ?b] => destruct (wtomove b) end;
  Z.to_euclidean_division_equations; lia.

Ltac miss Ht :=
  rewrite filter_seg_miss;
  [| let t' := fresh "t" in
     intros t' _ ->; apply bitsOf_In in Ht; offsets ].

Ltac hit Ht := rewrite filter_seg_hit by (apply bitsOf_NoDup || exact Ht).

Lemma pawn_pair b m :
  In m (pushList b ++ captureList b) ->
  exists o t,
    In m (emit b o t) /\
    filter (key o t) (pushList b ++ captureList b) = emit b o t /\
    (Z.abs (t - o) = 16 -> farRank b t = false).
Proof.
  rewrite pawnList_segs. intros Hin.
  repeat (apply in_app_or in Hin; destruct Hin as [Hin | Hin]);
    apply seg_In in Hin; destruct Hin as [t [Ht Hm]];
    eexists; exists t; (split; [exact Hm |]); rewrite !filter_app.
  - split.
    + hit Ht. miss Ht. miss Ht. miss Ht. rewrite !app_nil_r. reflexivity.
    + intros Habs. exfalso. apply bitsOf_In in Ht. revert Habs. offsets.
  - split.
    + miss Ht. hit Ht. miss Ht. miss Ht. rewrite !app_nil_r. reflexivity.
    + intros _. apply doubleTarget_rank in Ht. unfold farRank.
      destruct (wtomove b); lia.
  - split.
    + miss Ht. miss Ht. hit Ht. miss Ht. rewrite !app_nil_r. reflexivity.
    + intros Habs. exfalso. apply bitsOf_In in Ht. revert Habs. offsets.
  - split.
    + miss Ht. miss Ht. miss Ht. hit Ht. reflexivity.
    + intros Habs. exfalso. apply bitsOf_In in Ht. revert Habs. offsets.
Qed.

(* ------------------------------------------------------------------ *)
(** ** Closed forms of the piece generators *)

Lemma returnsOn_value {A} (c : M A) (b : Board) (d : A) :
  returnsOn c b -> pureRun c b (valueOf c b d).
Proof.
  intros [a Ha]. unfold pureRun in *. unfold valueOf. rewrite Ha. reflexivity.
Qed.

Lemma bind_pure_run {A B} (c : M A) (k : A -> M B) b a r b2 w :
  pureRun c b a -> k a b = Done r b2 w -> bind c k b = Done r b2 w.
Proof. intros Hc Hk. rewrite (bind_pure c k b a Hc). exact Hk. Qed.

Lemma bind_panic {A B} (c : M A) (k : A -> M B) b : c b = Panic -> bind c k b = Panic.
Proof. unfold bind. intros ->. reflexivity. Qed.


Lemma index_outside {A} (l : list A) i b :
  has64 l = true -> ~ 0 <= i < 64 -> index l i b = Panic.
Proof.
  unfold has64, index. intros Hl Hi. apply Nat.eqb_eq in Hl.
  destruct (Z.ltb_spec i 0) as [Hn | Hn]; [reflexivity |].
  destruct (nth_error l (Z.to_nat i)) as [v |] eqn:E; [| reflexivity].
  assert (Hlt : (Z.to_nat i < length l)%nat)
    by (apply nth_error_Some; rewrite E; discriminate).
  lia.
Qed.

Lemma index_maskAt (tbl : list Z) s b :
  has64 tbl = true -> 0 <= s < 64 -> pureRun (index tbl s) b (maskAt tbl s).
Proof.
  intros Hl Hs. destruct (has64_nth tbl s Hl Hs) as [v Hv].
  unfold maskAt. rewrite (nth_error_nth _ _ 0 Hv).
  apply index_pure; [lia | exact Hv].
Qed.

Lemma flat_map_single {A B} (f : A -> B) (l : list A) :
  flat_map (fun a => [f a]) l = map f l.
Proof.
  induction l as [| a l IH]; [reflexivity |].
  cbn [flat_map map app]. rewrite IH. reflexivity.
Qed.

Lemma genMovesFromTargets_run ml origin targets b :
  is64 targets ->
  genMovesFromTargets ml origin targets b
  = Done (ml ++ movesTo origin targets) b [].
Proof.
  intros Ht. unfold genMovesFromTargets, movesTo.
  rewrite <- flat_map_single.
  apply forBits_append; [apply clearsIn_word; exact Ht |].
  intros t s Hin. rewrite (Square_bit _ t Hin). reflexivity.
Qed.

(** Membership in the moves of a set of pieces. *)
Lemma movesTo_In origin targets m :
  In m (movesTo origin targets) <->
  exists t, 0 <= t < 64 /\ Z.testbit targets t = true /\
            m = mkMove origin t Nothing.
Proof.
  unfold movesTo. rewrite in_map_iff. split.
  - intros [t [E Hin]]. apply bitsOf_In in Hin. exists t. split; [tauto |].
    split; [tauto | symmetry; exact E].
  - intros [t [Hr [Hb E]]]. exists t. split; [symmetry; exact E |].
    apply bitsOf_In. tauto.
Qed.

Lemma pieceMoves_In pieces targets m :
  In m (pieceMoves pieces targets) <->
  exists s t, 0 <= s < 64 /\ Z.testbit pieces s = true /\
              0 <= t < 64 /\ Z.testbit (targets s) t = true /\
              m = mkMove s t Nothing.
Proof.
  unfold pieceMoves. rewrite in_flat_map. split.
  - intros [s [Hs Hm]]. rewrite (Square_bit _ s Hs) in Hm.
    apply bitsOf_In in Hs. apply movesTo_In in Hm.
    destruct Hm as [t [Ht [Hb E]]]. exists s, t. tauto.
  - intros [s [t [Hs [Hp [Ht [Hb E]]]]]]. exists s.
    assert (Hin : In s (bitsOf pieces)) by (apply bitsOf_In; tauto).
    split; [exact Hin |]. rewrite (Square_bit _ s Hin).
    apply movesTo_In. exists t. tauto.
Qed.

Section PieceListFacts.

Variable T : Tables.
Hypothesis sized : tablesSized T.

Lemma ours_words b : boardWords b -> sideWords (ours b).
Proof.
  intros [Hw [Hb _]]. unfold ours. destruct (wtomove b); assumption.
Qed.

Lemma knightMoves_form ml b :
  boardWords b ->
  knightMoves T ml b
  = Done (ml ++ pieceMoves (knights (ours b)) (knightTargets T b)) b [].
Proof.
  intros Hw. pose proof (ours_words b Hw) as Ho.
  destruct (sized_facts T sized) as [[Hk _] _].
  unfold knightMoves.
  apply (bind_pure_run _ _ b b _ _ _ (getBoard_pure b)). cbv zeta.
  assert (E1 : (if wtomove b then knights (white b) else knights (black b))
               = knights (ours b))
    by (unfold ours; destruct (wtomove b); reflexivity).
  assert (E2 : (if wtomove b then not64 (all (white b))
                else not64 (all (black b)))
               = not64 (all (ours b)))
    by (unfold ours; destruct (wtomove b); reflexivity).
  rewrite E1, E2. unfold pieceMoves.
  apply forBits_append; [apply clearsIn_word, Ho |].
  intros t s Hin. pose proof Hin as Hr. apply bitsOf_In in Hr.
  apply (bind_pure_run _ _ b _ _ _ _
           (index_maskAt (knightMasks T) t b Hk (proj1 Hr))).
  apply genMovesFromTargets_run. apply land_is64_r, not64_is64.
Qed.

Lemma rookLookup_value s b :
  0 <= s < 64 ->
  pureRun (rookLookup T s (occupied b)) b
          (valueOf (rookLookup T s (occupied b)) b 0).
Proof.
  intros Hs. apply returnsOn_value, rookLookup_returns; assumption.
Qed.

Lemma bishopLookup_value s b :
  0 <= s < 64 ->
  pureRun (bishopLookup T s (occupied b)) b
          (valueOf (bishopLookup T s (occupied b)) b 0).
Proof.
  intros Hs. apply returnsOn_value, bishopLookup_returns; assumption.
Qed.

Lemma rookMoves_form ml b :
  boardWords b ->
  rookMoves T ml b
  = Done (ml ++ pieceMoves (rooks (ours b)) (rookTargets T b)) b [].
Proof.
  intros Hw. pose proof (ours_words b Hw) as Ho.
  unfold rookMoves.
  apply (bind_pure_run _ _ b b _ _ _ (getBoard_pure b)). cbv zeta.
  assert (E1 : (if wtomove b then rooks (white b) else rooks (black b))
               = rooks (ours b))
    by (unfold ours; destruct (wtomove b); reflexivity).
  assert (E2 : (if wtomove b then all (white b) else all (black b))
               = all (ours b))
    by (unfold ours; destruct (wtomove b); reflexivity).
  rewrite E1, E2. fold (occupied b). unfold pieceMoves.
  apply forBits_append; [apply clearsIn_word, Ho |].
  intros t s Hin. pose proof Hin as Hr. apply bitsOf_In in Hr.
  apply (bind_pure_run _ _ b _ _ _ _ (rookLookup_value t b (proj1 Hr))).
  apply genMovesFromTargets_run. apply land_is64_r, not64_is64.
Qed.

Lemma bishopMoves_form ml b :
  boardWords b ->
  bishopMoves T ml b
  = Done (ml ++ pieceMoves (bishops (ours b)) (bishopTargets T b)) b [].
Proof.
  intros Hw. pose proof (ours_words b Hw) as Ho.
  unfold bishopMoves.
  apply (bind_pure_run _ _ b b _ _ _ (getBoard_pure b)). cbv zeta.
  assert (E1 : (if wtomove b then bishops (white b) else bishops (black b))
               = bishops (ours b))
    by (unfold ours; destruct (wtomove b); reflexivity).
  assert (E2 : (if wtomove b then all (white b) else all (black b))
               = all (ours b))
    by (unfold ours; destruct (wtomove b); reflexivity).
  rewrite E1, E2. fold (occupied b). unfold pieceMoves.
  apply forBits_append; [apply clearsIn_word, Ho |].
  intros t s Hin. pose proof Hin as Hr. apply bitsOf_In in Hr.
  apply (bind_pure_run _ _ b _ _ _ _ (bishopLookup_value t b (proj1 Hr))).
  apply genMovesFromTargets_run. apply land_is64_r, not64_is64.
Qed.

Lemma queenMoves_form ml b :
  boardWords b ->
  queenMoves T ml b = Done (ml ++ queenList T b) b [].
Proof.
  intros Hw. pose proof (ours_words b Hw) as Ho.
  unfold queenMoves.
  apply (bind_pure_run _ _ b b _ _ _ (getBoard_pure b)). cbv zeta.
  assert (E1 : (if wtomove b then queens (white b) else queens (black b))
               = queens (ours b))
    by (unfold ours; destruct (wtomove b); reflexivity).
  assert (E2 : (if wtomove b then all (white b) else all (black b))
               = all (ours b))
    by (unfold ours; destruct (wtomove b); reflexivity).
  rewrite E1, E2. fold (occupied b). unfold queenList.
  apply forBits_append; [apply clearsIn_word, Ho |].
  intros t s Hin. pose proof Hin as Hr. apply bitsOf_In in Hr.
  apply (bind_pure_run _ _ b _ _ _ _ (bishopLookup_value t b (proj1 Hr))).
  apply (bind_pure_run _ _ b (s ++ movesTo (Square t) (bishopTargets T b t))).
  { apply genMovesFromTargets_run. apply land_is64_r, not64_is64. }
  apply (bind_pure_run _ _ b _ _ _ _ (rookLookup_value t b (proj1 Hr))).
  rewrite app_assoc.
  apply genMovesFromTargets_run. apply land_is64_r, not64_is64.
Qed.

End PieceListFacts.

(* ------------------------------------------------------------------ *)
(** ** Closed form of the king generator *)

Lemma wrap8_idem x : wrap8 (wrap8 x) = wrap8 x.
Proof. unfold wrap8. apply Z.mod_mod. rewrite pow8. lia. Qed.

Lemma kingLifted_side b : wtomove (kingLifted b) = wtomove b.
Proof.
  unfold kingLifted. cbv zeta. generalize (kingSquare b) as k. intros k.
  destruct b as [w bl side ep c1 c2 c3 c4]. destruct side; reflexivity.
Qed.

(** The clear-path tests of [kingMoves] hold on every board: the masks are
    and-ed together before the comparison. *)
Lemma kingsideClear_true a (side : bool) :
  (if side then Z.land (Z.land a (bit 5)) (bit 6) =? 0
   else Z.land (Z.land a (bit 61)) (bit 62) =? 0) = true.
Proof.
  destruct side; rewrite <- Z.land_assoc.
  - change (Z.land (bit 5) (bit 6)) with 0. rewrite Z.land_0_r. reflexivity.
  - change (Z.land (bit 61) (bit 62)) with 0. rewrite Z.land_0_r. reflexivity.
Qed.

Lemma queensideClear_true a (side : bool) :
  (if side then Z.land (Z.land (Z.land a (bit 3)) (bit 2)) (bit 1) =? 0
   else Z.land (Z.land (Z.land a (bit 57)) (bit 58)) (bit 59) =? 0) = true.
Proof.
  destruct side; rewrite <- !Z.land_assoc.
  - change (Z.land (bit 3) (Z.land (bit 2) (bit 1))) with 0.
    rewrite Z.land_0_r. reflexivity.
  - change (Z.land (bit 57) (Z.land (bit 58) (bit 59))) with 0.
    rewrite Z.land_0_r. reflexivity.
Qed.

Lemma probes_in_range b :
  Forall (fun v => 0 <= v < 64) (kingsideProbes b) /\
  Forall (fun v => 0 <= v < 64) (queensideProbes b).
Proof.
  unfold kingsideProbes, queensideProbes.
  destruct (wtomove b); split; repeat constructor; lia.
Qed.

Section KingFormFacts.

Variable T : Tables.
Hypothesis sized : tablesSized T.

Lemma anyUnderDirectAttack_value byBlack squares b :
  Forall (fun v => 0 <= v < 64) squares ->
  pureRun (anyUnderDirectAttack T byBlack squares) b
          (existsb (fun v => valueOf (underDirectAttack T byBlack v) b false)
                   squares).
Proof.
  induction 1 as [| v rest Hv Hrest IH]; [reflexivity |].
  cbn [anyUnderDirectAttack existsb]. unfold pureRun.
  pose proof (returnsOn_value _ b false
                (underDirectAttack_returns T sized byBlack v b Hv)) as Hu.
  rewrite (bind_pure _ _ b _ Hu).
  destruct (valueOf (underDirectAttack T byBlack v) b false);
    [reflexivity | exact IH].
Qed.

(** A castle test answers [true] only with the right set and no probed
    square reported attacked. *)
Lemma castleCheck_true right clear byBlack squares b :
  Forall (fun v => 0 <= v < 64) squares ->
  valueOf (castleCheck T right clear byBlack squares) b false = true ->
  right = true /\ clear = true /\
  anyUnderDirectAttack T byBlack squares b = Done false b [].
Proof.
  intros Hs. pose proof (anyUnderDirectAttack_value byBlack squares b Hs) as Ha.
  unfold valueOf, castleCheck.
  destruct right, clear; cbn [andb]; try discriminate.
  rewrite (bind_pure _ _ b _ Ha). unfold ret.
  destruct (existsb _ squares) eqn:E; cbn [negb]; [discriminate |].
  intros _. unfold pureRun in Ha. tauto.
Qed.

Lemma kingProbe_form b t s :
  boardWords b -> kings (sideOf (wtomove b) b) <> 0 -> 0 <= t < 64 ->
  (cur <- getBoard ;;
   hit <- underDirectAttack T (wtomove cur) (wrap8 t) ;;
   if hit then ret s
   else ret (s ++ [mkMove (kingSquare b) (wrap8 t) Nothing]))
    (kingLifted b)
  = Done (s ++ (if probed T b t then []
                else [mkMove (kingSquare b) t Nothing]))
         (kingLifted b) [].
Proof.
  intros Hw Hk Ht.
  apply (bind_pure_run _ _ _ _ _ _ _ (getBoard_pure (kingLifted b))).
  rewrite kingLifted_side.
  assert (Hr : 0 <= wrap8 t < 64) by (rewrite wrap8_small; lia).
  pose proof (returnsOn_value _ (kingLifted b) false
                (underDirectAttack_returns T sized (wtomove b) (wrap8 t)
                   (kingLifted b) Hr)) as Hu.
  apply (bind_pure_run _ _ _ _ _ _ _ Hu). fold (probed T b t).
  destruct (probed T b t); unfold ret.
  - rewrite app_nil_r. reflexivity.
  - rewrite (wrap8_small t) by lia. reflexivity.
Qed.

Lemma kingMoves_form ml b :
  boardWords b -> kings (sideOf (wtomove b) b) <> 0 ->
  kingMoves T ml b
  = Done (ml
          ++ castleMoves b
               (castleAnswer T b (kingsideRight b) (kingsideProbes b))
               (castleAnswer T b (queensideRight b) (queensideProbes b))
          ++ kingSteps T b)
         (kingFinal b) (kingStores b).
Proof.
  intros Hw Hk. pose proof (kingSquare_range b Hw Hk) as Hsq.
  destruct (probes_in_range b) as [HpK HpQ].
  destruct (sized_facts T sized) as [[_ Hg] _].
  unfold kingMoves.
  apply (bind_pure_run _ _ b b _ _ _ (getBoard_pure b)). cbv zeta.
  assert (Hks : (if wtomove b
                 then wrap8 (TrailingZeros64 (kings (white b)))
                 else wrap8 (TrailingZeros64 (kings (black b))))
                = kingSquare b)
    by (unfold kingSquare, sideOf; destruct (wtomove b); reflexivity).
  rewrite !Hks, kingsideClear_true, queensideClear_true. clear Hks.
  assert (EQ : (if wtomove b
                then castleCheck T (whiteCanCastleQueenside b) true true
                                 [0; 1; 2; 3; 4]
                else castleCheck T (blackCanCastleQueenside b) true false
                                 [56; 57; 58; 59; 60])
               = castleCheck T (queensideRight b) true (wtomove b)
                             (queensideProbes b))
    by (unfold queensideRight, queensideProbes; destruct (wtomove b);
        reflexivity).
  assert (EK : (if wtomove b
                then castleCheck T (whiteCanCastleKingside b) true true
                                 [4; 5; 6; 7]
                else castleCheck T (blackCanCastleKingside b) true false
                                 [60; 61; 62; 63])
               = castleCheck T (kingsideRight b) true (wtomove b)
                             (kingsideProbes b))
    by (unfold kingsideRight, kingsideProbes; destruct (wtomove b);
        reflexivity).
  rewrite EQ, EK. clear EQ EK.
  apply (bind_pure_run _ _ b _ _ _ _
           (returnsOn_value _ b false
              (castleCheck_returns T sized (queensideRight b) true (wtomove b)
                 (queensideProbes b) b HpQ))).
  apply (bind_pure_run _ _ b _ _ _ _
           (returnsOn_value _ b false
              (castleCheck_returns T sized (kingsideRight b) true (wtomove b)
                 (kingsideProbes b) b HpK))).
  fold (castleAnswer T b (queensideRight b) (queensideProbes b)).
  fold (castleAnswer T b (kingsideRight b) (kingsideProbes b)).
  set (ck := castleAnswer T b (kingsideRight b) (kingsideProbes b)).
  set (cq := castleAnswer T b (queensideRight b) (queensideProbes b)).
  unfold Square. rewrite !wrap8_idem, !(wrap8_small (kingSquare b)) by lia.
  cbv [Setto Setfrom zeroMove mfrom mto mpromote].
  match goal with |- context [forBits _ _ _ ?start] =>
    replace start with (ml ++ castleMoves b ck cq)
      by (unfold castleMoves; destruct ck, cq; cbn [app];
          rewrite <- ?app_assoc; cbn [app]; rewrite ?app_nil_r; reflexivity)
  end.
  unfold kingFinal, kingLifted, kingStores. cbv zeta.
  set (k := kingSquare b) in *.
  set (side := wtomove b).
  set (b1 := withSide side (setKings (sideOf side b) 0) b).
  set (lifted := Z.land (all (sideOf side b1)) (not64 (bit k))).
  set (b2 := withSide side (setAll (sideOf side b1) lifted) b1).
  set (old := kings (sideOf side b)).
  set (b3 := withSide side (setKings (sideOf side b2) old) b2).
  assert (Hl : Z.land (all (sideOf side b)) (not64 (bit k)) = lifted)
    by (unfold lifted, b1; destruct side; reflexivity).
  rewrite Hl.
  assert (Hl3 : all (sideOf side b3) = lifted)
    by (unfold b3, b2; destruct side; reflexivity).
  rewrite Hl3.
  assert (Hb2 : b2 = kingLifted b) by reflexivity.
  apply (bind_pure_run _ _ b _ _ _ _ (loadSide_pure side b)).
  apply (bind_run _ _ b tt b1 [StoreKings side 0] _ _
           [StoreAll side lifted; StoreKings side old;
            StoreAll side (Z.lor lifted (bit k))]
           (storeKings_run side 0 b)).
  apply (bind_pure_run _ _ b1 _ _ _ _ (loadSide_pure side b1)).
  apply (bind_run _ _ b1 tt b2 [StoreAll side lifted] _ _
           [StoreKings side old; StoreAll side (Z.lor lifted (bit k))]
           (storeAll_run side lifted b1)).
  apply (bind_pure_run _ _ b2 _ _ _ _ (index_maskAt (kingMasks T) k b2 Hg Hsq)).
  assert (E2 : (if side then not64 (all (white b)) else not64 (all (black b)))
               = not64 (all (ours b)))
    by (unfold ours, side; destruct (wtomove b); reflexivity).
  rewrite E2. fold (kingTargets T b).
  match goal with |- bind (forBits ?n ?x ?body ?s) _ _ = _ =>
    assert (Hloop : forBits n x body s b2
                    = Done (s ++ kingSteps T b) b2 [])
  end.
  { unfold kingSteps. apply forBits_append.
    - apply clearsIn_word. unfold kingTargets. apply land_is64_r, not64_is64.
    - intros t s Hin. apply bitsOf_In in Hin. rewrite Hb2.
      apply (kingProbe_form b t s Hw Hk (proj1 Hin)). }
  apply (bind_pure_run _ _ b2 _ _ _ _ Hloop).
  apply (bind_run _ _ b2 tt b3 [StoreKings side old] _ _
           [StoreAll side (Z.lor lifted (bit k))]
           (storeKings_run side old b2)).
  apply (bind_pure_run _ _ b3 _ _ _ _ (loadSide_pure side b3)).
  rewrite Hl3.
  apply (bind_run _ _ b3 tt _ [StoreAll side (Z.lor lifted (bit k))] _ _
           [] (storeAll_run side (Z.lor lifted (bit k)) b3)).
  unfold ret. rewrite <- app_assoc. reflexivity.
Qed.

End KingFormFacts.

(* ------------------------------------------------------------------ *)
(** ** Pawn pushes *)

Lemma fourthRank_eq t :
  0 <= t < 64 -> Z.testbit 0xFF000000 t = (t / 8 =? 3).
Proof.
  intros Ht. apply eqb_prop.
  apply (range_forall
           (fun t => eqb (Z.testbit 0xFF000000 t) (t / 8 =? 3)));
    [vm_compute; reflexivity | exact Ht].
Qed.

Lemma fifthRank_eq t :
  0 <= t < 64 -> Z.testbit 0xFF00000000 t = (t / 8 =? 4).
Proof.
  intros Ht. apply eqb_prop.
  apply (range_forall
           (fun t => eqb (Z.testbit 0xFF00000000 t) (t / 8 =? 4)));
    [vm_compute; reflexivity | exact Ht].
Qed.

Lemma free_bit b t :
  0 <= t < 64 ->
  Z.testbit (Z.land (not64 (all (white b))) (not64 (all (black b)))) t
  = emptyAt b t.
Proof.
  intros Ht. unfold emptyAt. rewrite Z.land_spec, !not64_bit by exact Ht.
  reflexivity.
Qed.

Lemma pushBoards_fst_bit b t :
  0 <= t < 64 ->
  Z.testbit (fst (pushBoards b)) t
  = Z.testbit (pawns (ours b)) (t - 8 * forward b) && emptyAt b t.
Proof.
  intros Ht. unfold pushBoards, pawnPushBitboards, ours, forward.
  rewrite (bind_pure getBoard _ b b (getBoard_pure b)). cbv zeta.
  destruct (wtomove b); cbn [fst ret sideOf];
    rewrite Z.land_spec, free_bit by exact Ht; f_equal.
  - rewrite shl64_bit by lia. reflexivity.
  - rewrite shr64_bit by lia. reflexivity.
Qed.

Lemma pushBoards_snd_bit b t :
  0 <= t < 64 ->
  Z.testbit (snd (pushBoards b)) t
  = Z.testbit (fst (pushBoards b)) (t - 8 * forward b)
    && (rankOf t =? doubleRank b) && emptyAt b t.
Proof.
  intros Ht. unfold pushBoards, pawnPushBitboards, forward, doubleRank, rankOf.
  rewrite (bind_pure getBoard _ b b (getBoard_pure b)). cbv zeta.
  destruct (wtomove b); cbn [fst snd ret];
    rewrite !(Z.land_spec (Z.land _ _) _), free_bit by exact Ht;
    f_equal; rewrite (Z.land_spec _ _ t).
  - rewrite fourthRank_eq, shl64_bit by lia. reflexivity.
  - rewrite fifthRank_eq, shr64_bit by lia. reflexivity.
Qed.

Lemma singlePushes_In b p t :
  is64 (pawns (ours b)) ->
  (exists m, In m (singlePushes b) /\ mfrom m = p /\ mto m = t)
  <-> (0 <= p < 64 /\ 0 <= t < 64 /\ Z.testbit (pawns (ours b)) p = true /\
       t = p + 8 * forward b /\ emptyAt b t = true).
Proof.
  intros Hp. unfold singlePushes.
  assert (Hs : stepBack b = - (8 * forward b))
    by (unfold stepBack, forward; destruct (wtomove b); reflexivity).
  split.
  - intros [m [Hin [Hf Ht]]]. apply in_flat_map in Hin.
    destruct Hin as [t' [Hbit Hm]]. apply emit_In in Hm.
    destruct Hm as [Hf' [Ht' _]]. apply bitsOf_In in Hbit.
    destruct Hbit as [Hr Hbit]. rewrite (pushBoards_fst_bit b t' Hr) in Hbit.
    apply andb_true_iff in Hbit. destruct Hbit as [Hpawn Hempty].
    pose proof (is64_testbit _ _ Hp Hpawn) as Hpr.
    unfold Square in Hf'. rewrite Hs, wrap8_small in Hf' by lia.
    subst p t. rewrite Hf', Ht'.
    replace (t' + - (8 * forward b)) with (t' - 8 * forward b) by lia.
    repeat split; try assumption; try lia.
  - intros [Hpr [Ht [Hpawn [E Hempty]]]].
    destruct (emit_first b (Square (t + stepBack b)) t) as [m [Hin [Hf Hto]]].
    exists m. split; [| split; [| exact Hto]].
    + apply in_flat_map. exists t. split; [| exact Hin].
      apply bitsOf_In. split; [exact Ht |].
      rewrite (pushBoards_fst_bit b t Ht).
      replace (t - 8 * forward b) with p by lia.
      rewrite Hpawn, Hempty. reflexivity.
    + rewrite Hf. unfold Square. rewrite Hs, wrap8_small; lia.
Qed.

Lemma doublePushes_In b p t :
  is64 (pawns (ours b)) ->
  (exists m, In m (doublePushes b) /\ mfrom m = p /\ mto m = t)
  <-> (0 <= p < 64 /\ 0 <= t < 64 /\ Z.testbit (pawns (ours b)) p = true /\
       t = p + 16 * forward b /\ rankOf p = startRank b /\
       emptyAt b (p + 8 * forward b) = true /\ emptyAt b t = true).
Proof.
  intros Hp. unfold doublePushes.
  assert (Hs : 2 * stepBack b = - (16 * forward b))
    by (unfold stepBack, forward; destruct (wtomove b); reflexivity).
  assert (Hmid : forall t', 0 <= t' < 64 -> rankOf t' = doubleRank b ->
                            0 <= t' - 8 * forward b < 64).
  { unfold rankOf, doubleRank, forward. intros t' Hr.
    destruct (wtomove b); Z.to_euclidean_division_equations; lia. }
  split.
  - intros [m [Hin [Hf Ht]]]. apply in_flat_map in Hin.
    destruct Hin as [t' [Hbit [Hm | []]]]. apply bitsOf_In in Hbit.
    destruct Hbit as [Hr Hbit]. rewrite (pushBoards_snd_bit b t' Hr) in Hbit.
    apply andb_true_iff in Hbit. destruct Hbit as [Hbit Hempty].
    apply andb_true_iff in Hbit. destruct Hbit as [Hsingle Hrank].
    apply Z.eqb_eq in Hrank.
    rewrite (pushBoards_fst_bit b _ (Hmid t' Hr Hrank)) in Hsingle.
    apply andb_true_iff in Hsingle. destruct Hsingle as [Hpawn Hemid].
    pose proof (is64_testbit _ _ Hp Hpawn) as Hpr.
    subst m. cbn [mfrom mto] in Hf, Ht. subst t.
    unfold Square in Hf. rewrite Hs, wrap8_small in Hf by lia. subst p.
    replace (t' + - (16 * forward b)) with (t' - 8 * forward b - 8 * forward b)
      by lia.
    replace (t' - 8 * forward b - 8 * forward b + 8 * forward b)
      with (t' - 8 * forward b) by lia.
    repeat split; try assumption; try lia.
    revert Hrank Hpr. unfold rankOf, doubleRank, startRank, forward.
    destruct (wtomove b); Z.to_euclidean_division_equations; lia.
  - intros [Hpr [Ht [Hpawn [E [Hrank [Hemid Hempty]]]]]].
    exists (mkMove (Square (t + 2 * stepBack b)) t Nothing).
    assert (Hrt : rankOf t = doubleRank b).
    { revert Hrank. subst t. unfold rankOf, doubleRank, startRank, forward.
      destruct (wtomove b); Z.to_euclidean_division_equations; lia. }
    split; [| split; [| reflexivity]].
    + apply in_flat_map. exists t. split; [| left; reflexivity].
      apply bitsOf_In. split; [exact Ht |].
      rewrite (pushBoards_snd_bit b t Ht).
      rewrite (pushBoards_fst_bit b _ (Hmid t Ht Hrt)).
      replace (t - 8 * forward b - 8 * forward b) with p by lia.
      replace (t - 8 * forward b) with (p + 8 * forward b) by lia.
      rewrite Hpawn, Hemid, Hempty.
      apply Z.eqb_eq in Hrt. rewrite Hrt. reflexivity.
    + cbn [mfrom]. unfold Square. rewrite Hs, wrap8_small; lia.
Qed.

Lemma pushList_In b p t :
  boardWords b ->
  (exists m, In m (pushList b) /\ mfrom m = p /\ mto m = t) <-> pushRule b p t.
Proof.
  intros Hw. pose proof (ours_words b Hw) as [Hp _].
  pose proof (singlePushes_In b p t Hp) as H1.
  pose proof (doublePushes_In b p t Hp) as H2.
  unfold pushList, pushRule. split.
  - intros [m [Hin Hft]]. apply in_app_or in Hin. destruct Hin as [Hin | Hin].
    + destruct (proj1 H1 (ex_intro _ m (conj Hin Hft))) as (? & ? & ? & ? & ?).
      tauto.
    + destruct (proj1 H2 (ex_intro _ m (conj Hin Hft)))
        as (? & ? & ? & ? & ? & ? & ?).
      tauto.
  - intros [Hpr [Ht [Hpawn [[E Hempty] | [E [Hrank [Hemid Hempty]]]]]]].
    + destruct (proj2 H1) as [m [Hin Hft]]; [tauto |].
      exists m. split; [apply in_or_app; left; exact Hin | exact Hft].
    + destruct (proj2 H2) as [m [Hin Hft]]; [tauto |].
      exists m. split; [apply in_or_app; right; exact Hin | exact Hft].
Qed.

(* ------------------------------------------------------------------ *)
(** ** The oracle without attackers and outside the board *)

Section OracleEdgeFacts.

Variable T : Tables.
Hypothesis sized : tablesSized T.

Lemma underDirectAttack_outside byBlack origin b :
  ~ 0 <= origin < 64 -> underDirectAttack T byBlack origin b = Panic.
Proof.
  intros Ho. destruct (sized_facts T sized) as [[Hk _] _].
  unfold underDirectAttack.
  rewrite (bind_pure getBoard _ b b (getBoard_pure b)). cbv zeta.
  apply bind_panic. apply index_outside; assumption.
Qed.

Lemma underDirectAttack_quiet (byBlack : bool) (origin : Z) (b : Board) :
  0 <= origin < 64 ->
  knights (if byBlack then black b else white b) = 0 ->
  bishops (if byBlack then black b else white b) = 0 ->
  rooks (if byBlack then black b else white b) = 0 ->
  queens (if byBlack then black b else white b) = 0 ->
  kings (if byBlack then black b else white b) = 0 ->
  pawns (if byBlack then black b else white b) = 0 ->
  underDirectAttack T byBlack origin b = Done false b [].
Proof.
  intros Ho Hn Hb Hr Hq Hk Hp.
  destruct (sized_facts T sized) as [[Hkn Hkg] _].
  unfold underDirectAttack.
  apply (bind_pure_run _ _ b b _ _ _ (getBoard_pure b)). cbv zeta.
  rewrite Hn, Hb, Hr, Hq, Hk, Hp. cbn [Z.lor].
  apply (bind_pure_run _ _ b _ _ _ _ (index_maskAt _ origin b Hkn Ho)).
  rewrite Z.land_0_r. cbn [Z.eqb negb]. fold (occupied b).
  apply (bind_pure_run _ _ b _ _ _ _ (bishopLookup_value T sized origin b Ho)).
  rewrite Z.land_0_r. cbn [Z.eqb negb].
  apply (bind_pure_run _ _ b _ _ _ _ (rookLookup_value T sized origin b Ho)).
  rewrite Z.land_0_r. cbn [Z.eqb negb].
  apply (bind_pure_run _ _ b _ _ _ _ (index_maskAt _ origin b Hkg Ho)).
  rewrite !Z.land_0_r. reflexivity.
Qed.

End OracleEdgeFacts.

(* ------------------------------------------------------------------ *)
(** ** The generator without a king, and the generators in sequence *)

Section SequenceFacts.

Variable T : Tables.
Hypothesis sized : tablesSized T.




(** On a well-formed board the whole generator is the seven generators in
    sequence, each appending its own list. *)
Lemma GenerateLegalMoves_form b :
  wellFormed b ->
  GenerateLegalMoves T b
  = Done (pushList b
          ++ captureList b
          ++ pieceMoves (knights (ours b)) (knightTargets T b)
          ++ (castleMoves b
                (castleAnswer T b (kingsideRight b) (kingsideProbes b))
                (castleAnswer T b (queensideRight b) (queensideProbes b))
              ++ kingSteps T b)
          ++ pieceMoves (rooks (ours b)) (rookTargets T b)
          ++ pieceMoves (bishops (ours b)) (bishopTargets T b)
          ++ queenList T b)
         b (kingStores b).
Proof.
  intros Hwf. pose proof (wf_words b Hwf) as Hw.
  pose proof (wellFormed_king b Hwf) as Hk.
  unfold GenerateLegalMoves.
  apply (bind_pure_run _ _ b _ _ _ _ (pawnPushes_run [] b)).
  apply (bind_pure_run _ _ b _ _ _ _ (pawnCaptures_run _ b)).
  apply (bind_pure_run _ _ b _ _ _ _ (knightMoves_form T sized _ b Hw)).
  pose proof (kingMoves_form T sized
                ((([] ++ pushList b) ++ captureList b)
                 ++ pieceMoves (knights (ours b)) (knightTargets T b))
                b Hw Hk) as Hking.
  rewrite (kingFinal_wellFormed b Hwf) in Hking.
  rewrite <- (app_nil_r (kingStores b)).
  apply (bind_run _ _ b _ b _ _ _ _ Hking).
  apply (bind_pure_run _ _ b _ _ _ _ (rookMoves_form T sized _ b Hw)).
  apply (bind_pure_run _ _ b _ _ _ _ (bishopMoves_form T sized _ b Hw)).
  apply (bind_pure_run _ _ b _ _ _ _ (queenMoves_form T sized _ b Hw)).
  unfold ret. rewrite app_nil_l, <- !app_assoc. reflexivity.
Qed.

End SequenceFacts.

(* ------------------------------------------------------------------ *)
(** ** Membership in the lists of the piece generators *)

Lemma reach_bit reach own t :
  0 <= t < 64 ->
  Z.testbit (Z.land reach (not64 own)) t = true <->
  Z.testbit reach t = true /\ Z.testbit own t = false.
Proof.
  intros Ht. rewrite Z.land_spec, not64_bit by exact Ht.
  rewrite andb_true_iff, negb_true_iff. tauto.
Qed.

Lemma pureRun_value {A} (c : M A) b (a d : A) :
  returnsOn c b -> (c b = Done a b [] <-> a = valueOf c b d).
Proof.
  intros Hr. pose proof (returnsOn_value c b d Hr) as Hv.
  unfold pureRun in Hv. split.
  - intros H. rewrite H in Hv. injection Hv as E. exact E.
  - intros ->. exact Hv.
Qed.


Lemma lift_then_set a k :
  is64 a -> 0 <= k < 64 ->
  Z.lor (Z.land a (not64 (bit k))) (bit k) = Z.lor a (bit k).
Proof.
  intros Ha Hk. apply Z.bits_inj'. intros i Hi.
  rewrite !Z.lor_spec, Z.land_spec.
  destruct (Z.ltb_spec i 64) as [Hlt | Hge].
  - rewrite not64_bit, bit_testbit by lia.
    destruct (Z.testbit a i), (i =? k); reflexivity.
  - assert (Hout : forall x, is64 x -> Z.testbit x i = false).
    { intros x Hx. destruct (Z.testbit x i) eqn:E; [| reflexivity].
      pose proof (is64_testbit x i Hx E). lia. }
    rewrite (Hout a Ha), (Hout (bit k) (shl64_is64 1 k)). reflexivity.
Qed.


(* ------------------------------------------------------------------ *)
(** ** Pawn probes that fall off the board *)

Lemma shl64_high k : 64 <= k -> shl64 1 k = 0.
Proof.
  intros Hk. apply Z.bits_inj'. intros i Hi. rewrite Z.bits_0.
  destruct (Z.ltb_spec i 64) as [Hlt | Hge].
  - rewrite shl64_bit by lia. apply Z.testbit_neg_r. lia.
  - destruct (Z.testbit (shl64 1 k) i) eqn:E; [| reflexivity].
    pose proof (is64_testbit _ i (shl64_is64 1 k) E). lia.
Qed.

Section PawnProbeFacts.

Variable T : Tables.
Hypothesis sized : tablesSized T.

Lemma underDirectAttack_edge_rank (byBlack : bool) (origin : Z) (b : Board) :
  (byBlack = false /\ 0 <= origin <= 6) \/
  (byBlack = true /\ 57 <= origin < 64) ->
  knights (if byBlack then black b else white b) = 0 ->
  bishops (if byBlack then black b else white b) = 0 ->
  rooks (if byBlack then black b else white b) = 0 ->
  queens (if byBlack then black b else white b) = 0 ->
  kings (if byBlack then black b else white b) = 0 ->
  underDirectAttack T byBlack origin b = Done false b [].
Proof.
  intros Hcase Hn Hb Hr Hq Hk.
  assert (Ho : 0 <= origin < 64) by lia.
  destruct (sized_facts T sized) as [[Hkn Hkg] _].
  unfold underDirectAttack.
  apply (bind_pure_run _ _ b b _ _ _ (getBoard_pure b)). cbv zeta.
  rewrite Hn, Hb, Hr, Hq, Hk. cbn [Z.lor].
  apply (bind_pure_run _ _ b _ _ _ _ (index_maskAt _ origin b Hkn Ho)).
  rewrite Z.land_0_r. cbn [Z.eqb negb]. fold (occupied b).
  apply (bind_pure_run _ _ b _ _ _ _ (bishopLookup_value T sized origin b Ho)).
  rewrite Z.land_0_r. cbn [Z.eqb negb].
  apply (bind_pure_run _ _ b _ _ _ _ (rookLookup_value T sized origin b Ho)).
  rewrite Z.land_0_r. cbn [Z.eqb negb].
  apply (bind_pure_run _ _ b _ _ _ _ (index_maskAt _ origin b Hkg Ho)).
  rewrite Z.land_0_r. cbn [Z.eqb negb].
  destruct Hcase as [[-> Hlow] | [-> Hhigh]].
  - assert (H7 : 64 <= wrap8 (origin - 7))
      by (unfold wrap8; rewrite pow8; Z.to_euclidean_division_equations; lia).
    assert (H9 : 64 <= wrap8 (origin - 9))
      by (unfold wrap8; rewrite pow8; Z.to_euclidean_division_equations; lia).
    rewrite (shl64_high _ H7), (shl64_high _ H9).
    destruct (0 <=? wrap8 (origin - 7)), (0 <=? wrap8 (origin - 9));
      reflexivity.
  - assert (H7 : 64 <= wrap8 (origin + 7))
      by (unfold wrap8; rewrite pow8; Z.to_euclidean_division_equations; lia).
    assert (H9 : 64 <= wrap8 (origin + 9))
      by (unfold wrap8; rewrite pow8; Z.to_euclidean_division_equations; lia).
    rewrite (shl64_high _ H7), (shl64_high _ H9). reflexivity.
Qed.

End PawnProbeFacts.

(* ------------------------------------------------------------------ *)
(** ** The pawn list, pair by pair *)

Lemma pawnList_In b p t :
  wellFormed b ->
  (exists m, In m (pushList b ++ captureList b) /\ mfrom m = p /\ mto m = t)
  <-> pushRule b p t \/ captureRule b p t.
Proof.
  intros Hwf. pose proof (wf_words b Hwf) as Hw.
  rewrite <- (pushList_In b p t Hw), <- (captureList_In b p t Hwf).
  split.
  - intros [m [Hin Hft]]. apply in_app_or in Hin.
    destruct Hin as [Hin | Hin]; [left | right]; exists m; tauto.
  - intros [[m [Hin Hft]] | [m [Hin Hft]]]; exists m;
      (split; [apply in_or_app | exact Hft]); tauto.
Qed.

Lemma pawn_pair_filter b p t :
  wellFormed b -> pushRule b p t \/ captureRule b p t ->
  filter (key p t) (pushList b ++ captureList b) = emit b p t.
Proof.
  intros Hwf Hrule. apply (pawnList_In b p t Hwf) in Hrule.
  destruct Hrule as [m [Hin [Hf Ht]]].
  destruct (pawn_pair b m Hin) as [o [t' [Hm [Hfil _]]]].
  destruct (emit_In b o t' m Hm) as [Ho [Ht' _]].
  rewrite Hf in Ho. rewrite Ht in Ht'. subst o t'. exact Hfil.
Qed.

Lemma pawn_pair_none b p t :
  wellFormed b -> ~ (pushRule b p t \/ captureRule b p t) ->
  filter (key p t) (pushList b ++ captureList b) = [].
Proof.
  intros Hwf Hnone.
  destruct (filter (key p t) (pushList b ++ captureList b)) as [| m l] eqn:E;
    [reflexivity | exfalso].
  assert (Hm : In m (filter (key p t) (pushList b ++ captureList b)))
    by (rewrite E; left; reflexivity).
  apply filter_In in Hm. destruct Hm as [Hin Hkey].
  unfold key in Hkey. apply andb_true_iff in Hkey.
  destruct Hkey as [Hf Ht]. apply Z.eqb_eq in Hf. apply Z.eqb_eq in Ht.
  apply Hnone. apply (pawnList_In b p t Hwf). exists m. tauto.
Qed.

Lemma double_push_not_far b p t :
  pushRule b p t -> t = p + 16 * forward b -> farRank b t = false.
Proof.
  intros (Hp & Ht & _ & Hcases) E. revert Hcases E Hp Ht.
  unfold farRank, forward, rankOf, startRank.
  destruct (wtomove b); intros [[E1 _] | [_ [Hr _]]] E Hp Ht;
    try lia; Z.to_euclidean_division_equations; lia.
Qed.

(* ------------------------------------------------------------------ *)
(** ** The king's list, part by part *)

Lemma castleAnswer_eq T b right probes :
  tablesSized T -> Forall (fun v => 0 <= v < 64) probes ->
  anyUnderDirectAttack T (wtomove b) probes b
  = Done (existsb (fun v => valueOf (underDirectAttack T (wtomove b) v) b false)
                  probes) b [] /\
  castleAnswer T b right probes
  = right && negb (existsb (fun v => valueOf (underDirectAttack T (wtomove b) v)
                                             b false) probes).
Proof.
  intros HT Hs.
  pose proof (anyUnderDirectAttack_value T HT (wtomove b) probes b Hs) as Ha.
  split; [exact Ha |].
  unfold castleAnswer, valueOf, castleCheck.
  destruct right; cbn [andb]; [| reflexivity].
  rewrite (bind_pure _ _ b _ Ha). reflexivity.
Qed.

Lemma kingSteps_In T b m :
  tablesSized T -> boardWords b -> kings (sideOf (wtomove b) b) <> 0 ->
  In m (kingSteps T b) <->
  exists t mask,
    index (kingMasks T) (kingSquare b) b = Done mask b [] /\
    0 <= t < 64 /\ Z.testbit mask t = true /\
    Z.testbit (all (ours b)) t = false /\
    underDirectAttack T (wtomove b) t (kingLifted b)
    = Done false (kingLifted b) [] /\
    m = mkMove (kingSquare b) t Nothing.
Proof.
  intros HT Hw Hk.
  pose proof (kingSquare_range b Hw Hk) as Hsq.
  destruct (sized_facts T HT) as [[_ Hg] _].
  pose proof (index_maskAt (kingMasks T) (kingSquare b) b Hg Hsq) as Hm.
  unfold pureRun in Hm.
  assert (Hprobe : forall t, 0 <= t < 64 ->
            (probed T b t = false <->
             underDirectAttack T (wtomove b) t (kingLifted b)
             = Done false (kingLifted b) [])).
  { intros t Ht. unfold probed. rewrite (wrap8_small t) by lia.
    rewrite (pureRun_value _ (kingLifted b) false false
               (underDirectAttack_returns T HT (wtomove b) t
                  (kingLifted b) Ht)).
    split; intros H; symmetry; exact H. }
  unfold kingSteps. rewrite in_flat_map. split.
  - intros [t [Hin Hm']]. apply bitsOf_In in Hin. destruct Hin as [Ht Hb].
    unfold kingTargets in Hb. apply (reach_bit _ _ t Ht) in Hb.
    destruct (probed T b t) eqn:Hp; [destruct Hm' |].
    destruct Hm' as [E | []].
    exists t, (maskAt (kingMasks T) (kingSquare b)).
    apply (Hprobe t Ht) in Hp. split; [exact Hm |]. symmetry in E. tauto.
  - intros [t [mask [Hi [Ht [Hb [Hown [Hu E]]]]]]].
    rewrite Hm in Hi. injection Hi as Hi. subst mask.
    exists t. split.
    + apply bitsOf_In. split; [exact Ht |].
      unfold kingTargets. apply (reach_bit _ _ t Ht). tauto.
    + apply (Hprobe t Ht) in Hu. rewrite Hu. left. symmetry. exact E.
Qed.

Lemma kingSteps_NoDup T b : NoDup (kingSteps T b).
Proof.
  unfold kingSteps. generalize (bitsOf_NoDup (kingTargets T b)).
  generalize (bitsOf (kingTargets T b)) as L.
  induction L as [| a L IH]; intros Hnd; [constructor |].
  inversion Hnd as [| ? ? Hnot Hrest]; subst.
  cbn [flat_map]. destruct (probed T b a); cbn [app]; [exact (IH Hrest) |].
  constructor; [| exact (IH Hrest)].
  rewrite in_flat_map. intros [t [Hin Ht]].
  destruct (probed T b t); [destruct Ht |].
  destruct Ht as [E | []]. apply (f_equal mto) in E. cbn [mto] in E.
  subst t. exact (Hnot Hin).
Qed.

(* ------------------------------------------------------------------ *)
(** ** Theorems *)

(** C1.  On the standard starting position [GenerateLegalMoves] returns 22
    moves, not 20: the sixteen pawn pushes and the four knight moves, and
    then the two castle moves e1g1 and e1c1, which the king generator emits
    although the squares between king and rooks are occupied. *)
Theorem start_position_has_22_moves :
  movesOf (GenerateLegalMoves Rules.tables startBoard)
  = Some [mkMove 8 16 Nothing; mkMove 9 17 Nothing; mkMove 10 18 Nothing;
          mkMove 11 19 Nothing; mkMove 12 20 Nothing; mkMove 13 21 Nothing;
          mkMove 14 22 Nothing; mkMove 15 23 Nothing;
          mkMove 8 24 Nothing; mkMove 9 25 Nothing; mkMove 10 26 Nothing;
          mkMove 11 27 Nothing; mkMove 12 28 Nothing; mkMove 13 29 Nothing;
          mkMove 14 30 Nothing; mkMove 15 31 Nothing;
          mkMove 1 16 Nothing; mkMove 1 18 Nothing;
          mkMove 6 21 Nothing; mkMove 6 23 Nothing;
          mkMove 4 6 Nothing; mkMove 4 2 Nothing]
  /\ option_map (@length Move)
       (movesOf (GenerateLegalMoves Rules.tables startBoard)) = Some 22%nat.
Proof. split; vm_compute; reflexivity. Qed.

(** C2.  On the starting position the king generator emits both castle
    moves although every square between the king and either rook is
    occupied: the clear-path tests never fail.  On [rookA8Board], where the
    right is set, b1, c1 and d1 are empty and none of e1, d1, c1 is
    attacked, it emits no castle move, because the rook's square a1 is
    attacked. *)
Theorem castle_through_occupied_squares :
  (movesOf (kingMoves Rules.tables [] startBoard)
   = Some [mkMove 4 6 Nothing; mkMove 4 2 Nothing]
   /\ forallb (Z.testbit (Z.lor (all (white startBoard))
                                (all (black startBoard))))
              [1; 2; 3; 5; 6] = true)
  /\
  (movesOf (kingMoves Rules.tables [] rookA8Board)
   = Some [mkMove 4 3 Nothing; mkMove 4 5 Nothing; mkMove 4 11 Nothing;
           mkMove 4 12 Nothing; mkMove 4 13 Nothing]
   /\ whiteCanCastleQueenside rookA8Board = true
   /\ forallb (Z.testbit (Z.lor (all (white rookA8Board))
                                (all (black rookA8Board))))
              [1; 2; 3] = false
   /\ movesOf (anyUnderDirectAttack Rules.tables true [2; 3; 4] rookA8Board)
      = Some false
   /\ movesOf (underDirectAttack Rules.tables true 0 rookA8Board)
      = Some true).
Proof. vm_compute. repeat split; reflexivity. Qed.

(** C3.  With a black pawn on h2 (square 15) and no other black piece but
    the king on e8, the oracle reports a2 (square 8) attacked by black:
    [origin + 7] wraps from the A file to the H file of the rank below the
    one intended.  No black pawn stands on b3 or b1, the squares diagonally
    adjacent to a2.  The guard [origin-7 >= 0] compares an unsigned byte
    and always holds; from square 3 the difference wraps to 252 and the
    shift yields no bit. *)
Theorem pawn_attack_wraps_files :
  underDirectAttack Rules.tables true 8 pawnH2Board = Done true pawnH2Board []
  /\ knights (black pawnH2Board) = 0
  /\ bishops (black pawnH2Board) = 0
  /\ rooks (black pawnH2Board) = 0
  /\ queens (black pawnH2Board) = 0
  /\ option_map (fun m => Z.land m (kings (black pawnH2Board)))
       (nth_error (kingMasks Rules.tables) 8) = Some 0
  /\ Z.testbit (pawns (black pawnH2Board)) 17 = false
  /\ Z.testbit (pawns (black pawnH2Board)) 1 = false
  /\ Z.testbit (pawns (black pawnH2Board)) 15 = true
  /\ 15 mod 8 = 7 /\ 8 mod 8 = 0
  /\ (0 <=? wrap8 (3 - 7)) = true /\ shl64 1 (wrap8 (3 - 7)) = 0.
Proof. vm_compute. repeat split; reflexivity. Qed.

(** C4, the failing input.  Without a king for the side to move the king
    generator indexes the 64-entry king mask table at 64 and panics. *)
Lemma kingless_board_panics :
  tablesSized Rules.tables /\ boardWords kinglessBoard
  /\ GenerateLegalMoves Rules.tables kinglessBoard = Panic.
Proof.
  split; [exact rules_tables_sized |].
  split; [exact kinglessBoard_words |].
  vm_compute. reflexivity.
Qed.

(** C4, amended.  For sized tables and every board, well-formed or not, on
    which the side to move has at least one king bit, [GenerateLegalMoves]
    runs to completion: no table is indexed out of range and every scan loop
    ends. *)
Theorem GenerateLegalMoves_returns (T : Tables) (b : Board) :
  tablesSized T -> boardWords b -> kings (sideOf (wtomove b) b) <> 0 ->
  exists moves b' w, GenerateLegalMoves T b = Done moves b' w.
Proof.
  intros HT Hw Hk.
  destruct (GenerateLegalMoves_run T HT b Hw Hk) as [moves Hrun].
  exists moves, (kingFinal b), (kingStores b). exact Hrun.
Qed.

Lemma GenerateLegalMoves_returns_witness :
  exists moves b' w,
    GenerateLegalMoves Rules.tables twoKingsBoard = Done moves b' w.
Proof.
  apply (GenerateLegalMoves_returns Rules.tables twoKingsBoard).
  - exact rules_tables_sized.
  - unfold boardWords, sideWords, is64; cbn; rewrite ?pow64; lia.
  - cbn. lia.
Defined.

(** C5.  On a well-formed board the king generator and the whole generator
    return with the board exactly as it was: the king generator's stores
    are the removal of the king from [kings] and [all] followed by their
    restoration, and nothing else stores. *)
Theorem GenerateLegalMoves_restores_board (T : Tables) (b : Board) :
  tablesSized T -> wellFormed b ->
  (forall ml, exists ml', kingMoves T ml b = Done ml' b (kingStores b)) /\
  (exists moves, GenerateLegalMoves T b = Done moves b (kingStores b)).
Proof.
  intros HT Hwf.
  pose proof (wf_words b Hwf) as Hw.
  pose proof (wellFormed_king b Hwf) as Hk.
  split.
  - intros ml. destruct (kingMoves_run T HT ml b Hw Hk) as [ml' Hrun].
    rewrite (kingFinal_wellFormed b Hwf) in Hrun. exists ml'. exact Hrun.
  - destruct (GenerateLegalMoves_run T HT b Hw Hk) as [moves Hrun].
    rewrite (kingFinal_wellFormed b Hwf) in Hrun. exists moves. exact Hrun.
Qed.

Lemma GenerateLegalMoves_restores_board_witness :
  (forall ml, exists ml',
      kingMoves Rules.tables ml startBoard
      = Done ml' startBoard (kingStores startBoard)) /\
  (exists moves,
      GenerateLegalMoves Rules.tables startBoard
      = Done moves startBoard (kingStores startBoard)).
Proof.
  apply (GenerateLegalMoves_restores_board Rules.tables startBoard).
  - exact rules_tables_sized.
  - exact startBoard_wellFormed.
Defined.

(** C6.  On a well-formed board the two pawn generators return, leaving the
    board alone, and their list is settled pair by pair.  For every origin
    [p] and destination [t] that is a pawn push (the rule of pushes) or a
    pawn capture (the rule of captures), the moves emitted from [p] to [t]
    are: when [t] is on the far rank, exactly the four promotions to
    knight, bishop, rook and queen, in that order; otherwise exactly one
    move with no promotion piece.  For every other pair nothing is emitted.
    A push of two ranks never lands on the far rank, so it is one move with
    no promotion piece.  Seen from the list: every emitted move belongs to
    such a group of four or of one. *)
Theorem pawn_promotion_fan_out (b : Board) :
  wellFormed b ->
  exists ml,
    (ml <- pawnPushes [] ;; pawnCaptures ml) b = Done ml b [] /\
    (forall p t,
        pushRule b p t \/ captureRule b p t ->
        filter (fun n => (mfrom n =? p) && (mto n =? t)) ml
        = if farRank b t
          then [mkMove p t Knight; mkMove p t Bishop;
                mkMove p t Rook; mkMove p t Queen]
          else [mkMove p t Nothing]) /\
    (forall p t,
        ~ (pushRule b p t \/ captureRule b p t) ->
        filter (fun n => (mfrom n =? p) && (mto n =? t)) ml = []) /\
    (forall p t,
        pushRule b p t -> t = p + 16 * forward b ->
        farRank b t = false /\
        filter (fun n => (mfrom n =? p) && (mto n =? t)) ml
        = [mkMove p t Nothing]) /\
    forall m, In m ml ->
      (farRank b (mto m) = true ->
       map mpromote (filter (samePair m) ml) = [Knight; Bishop; Rook; Queen]) /\
      (farRank b (mto m) = false ->
       filter (samePair m) ml = [m] /\ mpromote m = Nothing) /\
      (Z.abs (mto m - mfrom m) = 16 ->
       farRank b (mto m) = false /\ mpromote m = Nothing).
Proof.
  intros Hwf. exists (pushList b ++ captureList b). split.
  { rewrite (bind_pure _ _ b _ (pawnPushes_run [] b)).
    rewrite pawnCaptures_run, app_nil_l. reflexivity. }
  split; [intros p t Hrule; apply (pawn_pair_filter b p t Hwf Hrule) |].
  split; [intros p t Hnone; apply (pawn_pair_none b p t Hwf Hnone) |].
  split.
  { intros p t Hpush Hdouble.
    pose proof (double_push_not_far b p t Hpush Hdouble) as Hfar.
    split; [exact Hfar |].
    pose proof (pawn_pair_filter b p t Hwf (or_introl Hpush)) as Hf.
    unfold emit in Hf. rewrite Hfar in Hf. exact Hf. }
  intros m Hin. destruct (pawn_pair b m Hin) as [o [t [Hm [Hf Hd]]]].
  destruct (emit_In b o t m Hm) as [Ho [Ht Hp]].
  change (samePair m) with (key (mfrom m) (mto m)).
  rewrite Ho, Ht, Hf. unfold emit in *.
  destruct (farRank b t).
  + split; [intros _; reflexivity |].
    split; [discriminate |].
    intros Habs. specialize (Hd Habs). discriminate.
  + destruct Hm as [Hm | []].
    split; [discriminate |].
    split; [intros _; rewrite Hm; split; [reflexivity | exact Hp] |].
    intros _. split; [reflexivity | exact Hp].
Qed.

Lemma pawn_promotion_fan_out_witness :
  exists ml,
    (ml <- pawnPushes [] ;; pawnCaptures ml) promotionBoard
    = Done ml promotionBoard [] /\
    (forall p t,
        pushRule promotionBoard p t \/ captureRule promotionBoard p t ->
        filter (fun n => (mfrom n =? p) && (mto n =? t)) ml
        = if farRank promotionBoard t
          then [mkMove p t Knight; mkMove p t Bishop;
                mkMove p t Rook; mkMove p t Queen]
          else [mkMove p t Nothing]) /\
    (forall p t,
        ~ (pushRule promotionBoard p t \/ captureRule promotionBoard p t) ->
        filter (fun n => (mfrom n =? p) && (mto n =? t)) ml = []) /\
    (forall p t,
        pushRule promotionBoard p t -> t = p + 16 * forward promotionBoard ->
        farRank promotionBoard t = false /\
        filter (fun n => (mfrom n =? p) && (mto n =? t)) ml
        = [mkMove p t Nothing]) /\
    forall m, In m ml ->
      (farRank promotionBoard (mto m) = true ->
       map mpromote (filter (samePair m) ml) = [Knight; Bishop; Rook; Queen]) /\
      (farRank promotionBoard (mto m) = false ->
       filter (samePair m) ml = [m] /\ mpromote m = Nothing) /\
      (Z.abs (mto m - mfrom m) = 16 ->
       farRank promotionBoard (mto m) = false /\ mpromote m = Nothing).
Proof.
  apply (pawn_promotion_fan_out promotionBoard).
  exact promotionBoard_wellFormed.
Defined.

(** C7.  On a well-formed board the capture generator returns, leaving the
    board alone, and its list holds a move from [p] to [t] exactly when an
    own pawn stands on [p], [t] is one square diagonally forward of [p]
    (east or west, on the board), and [t] is occupied by the opponent or is
    the active en-passant square.  Origin and destination files of every
    capture differ by exactly one, and a pawn diagonally behind the active
    en-passant square captures onto it whether or not it is occupied. *)
Theorem pawnCaptures_rule (b : Board) :
  wellFormed b ->
  exists ml,
    pawnCaptures [] b = Done ml b [] /\
    (forall p t,
        (exists m, In m ml /\ mfrom m = p /\ mto m = t) <-> captureRule b p t) /\
    (forall m, In m ml -> Z.abs (fileOf (mto m) - fileOf (mfrom m)) = 1) /\
    (forall p,
        0 < enpassant b -> 0 <= p < 64 ->
        Z.testbit (pawns (ours b)) p = true ->
        diagonalForward b p (enpassant b) ->
        exists m, In m ml /\ mfrom m = p /\ mto m = enpassant b).
Proof.
  intros Hwf. exists (captureList b).
  pose proof (pawnCaptures_run [] b) as Hrun. rewrite app_nil_l in Hrun.
  split; [exact Hrun |].
  split; [intros p t; apply captureList_In; exact Hwf |].
  split.
  - intros m Hin.
    assert (Hrule : captureRule b (mfrom m) (mto m))
      by (apply (captureList_In b _ _ Hwf); exists m; tauto).
    destruct Hrule as [_ [_ [_ [[_ Hfile] _]]]]. lia.
  - intros p Hep Hp Hpawn Hdiag.
    apply (captureList_In b p (enpassant b) Hwf).
    pose proof (wf_enpassant b Hwf) as Hr.
    unfold captureRule. repeat split; try assumption; try lia;
      apply Hdiag.
Qed.

Lemma pawnCaptures_rule_witness :
  exists ml,
    pawnCaptures [] enPassantBoard = Done ml enPassantBoard [] /\
    (forall p t,
        (exists m, In m ml /\ mfrom m = p /\ mto m = t)
        <-> captureRule enPassantBoard p t) /\
    (forall m, In m ml -> Z.abs (fileOf (mto m) - fileOf (mfrom m)) = 1) /\
    (forall p,
        0 < enpassant enPassantBoard -> 0 <= p < 64 ->
        Z.testbit (pawns (ours enPassantBoard)) p = true ->
        diagonalForward enPassantBoard p (enpassant enPassantBoard) ->
        exists m, In m ml /\ mfrom m = p /\ mto m = enpassant enPassantBoard).
Proof.
  apply (pawnCaptures_rule enPassantBoard). exact enPassantBoard_wellFormed.
Defined.

(** C8.  On the starting position [GenerateLegalMoves] produces the king
    move e1g1, whose destination g1 holds a white knight: the castle move is
    emitted without the clear-path test ever failing. *)
Theorem castle_lands_on_own_piece :
  exists moves,
    movesOf (GenerateLegalMoves Rules.tables startBoard) = Some moves
    /\ In (mkMove 4 6 Nothing) moves
    /\ Z.testbit (kings (white startBoard)) 4 = true
    /\ Z.testbit (knights (white startBoard)) 6 = true
    /\ Z.testbit (all (white startBoard)) 6 = true.
Proof.
  eexists. split; [vm_compute; reflexivity |].
  split; [| repeat split; reflexivity].
  do 20 right. left. reflexivity.
Qed.

(** C9.  On a well-formed board two calls of [GenerateLegalMoves] in
    succession both return, the second starts from the board the first left,
    and the two move sequences are the same list. *)
Theorem GenerateLegalMoves_twice (T : Tables) (b : Board) :
  tablesSized T -> wellFormed b ->
  exists moves w,
    (first <- GenerateLegalMoves T ;;
     second <- GenerateLegalMoves T ;;
     ret (first, second)) b
    = Done (moves, moves) b w.
Proof.
  intros HT Hwf.
  pose proof (wf_words b Hwf) as Hw.
  pose proof (wellFormed_king b Hwf) as Hk.
  destruct (GenerateLegalMoves_run T HT b Hw Hk) as [moves Hrun].
  rewrite (kingFinal_wellFormed b Hwf) in Hrun.
  exists moves, (kingStores b ++ kingStores b ++ []).
  apply (bind_run _ _ b moves b _ _ b _ Hrun).
  apply (bind_run _ _ b moves b _ _ b _ Hrun).
  reflexivity.
Qed.

Lemma GenerateLegalMoves_twice_witness :
  exists moves w,
    (first <- GenerateLegalMoves Rules.tables ;;
     second <- GenerateLegalMoves Rules.tables ;;
     ret (first, second)) enPassantBoard
    = Done (moves, moves) enPassantBoard w.
Proof.
  apply (GenerateLegalMoves_twice Rules.tables enPassantBoard).
  - exact rules_tables_sized.
  - exact enPassantBoard_wellFormed.
Defined.

(** C10.  [underDirectAttack] and [anyUnderDirectAttack] never store into
    the board: whatever the tables, the board and the squares, a run that
    returns leaves the board it was given and an empty list of stores, and
    the only other outcome is a panic (a square outside the tables).  With
    sized tables and squares in 0..63 they return. *)
Theorem attack_oracle_read_only (T : Tables) (byBlack : bool) (origin : Z)
        (squares : list Z) (b : Board) :
  match underDirectAttack T byBlack origin b with
  | Done _ b' w => b' = b /\ w = []
  | Panic => True
  | Timeout => False
  end /\
  match anyUnderDirectAttack T byBlack squares b with
  | Done _ b' w => b' = b /\ w = []
  | Panic => True
  | Timeout => False
  end /\
  (tablesSized T -> 0 <= origin < 64 ->
   exists hit, underDirectAttack T byBlack origin b = Done hit b []) /\
  (tablesSized T -> Forall (fun v => 0 <= v < 64) squares ->
   exists hit, anyUnderDirectAttack T byBlack squares b = Done hit b []).
Proof.
  split; [apply (underDirectAttack_readOnly T byBlack origin b) |].
  split; [apply (anyUnderDirectAttack_readOnly T byBlack squares b) |].
  split.
  - intros HT Hsq. apply (underDirectAttack_returns T HT); exact Hsq.
  - intros HT Hsq. apply (anyUnderDirectAttack_returns T HT); exact Hsq.
Qed.

Lemma attack_oracle_read_only_witness :
  (exists hit,
      underDirectAttack Rules.tables true 5 startBoard
      = Done hit startBoard []) /\
  (exists hit,
      anyUnderDirectAttack Rules.tables true [4; 5; 6; 7] startBoard
      = Done hit startBoard []).
Proof.
  destruct (attack_oracle_read_only Rules.tables true 5 [4; 5; 6; 7]
              startBoard) as [_ [_ [H1 H2]]].
  split.
  - apply H1; [exact rules_tables_sized | lia].
  - apply H2; [exact rules_tables_sized |].
    repeat constructor; lia.
Defined.

(* ------------------------------------------------------------------ *)
(** ** Further properties of the generators *)

(** X1.  [genMovesFromTargets] keeps the list it is given and appends one
    move per set bit of a 64-bit [targets], in the order of the scan, from
    [origin] to the bit's square with no promotion piece; it leaves the
    board alone, and for an empty [targets] it returns the list as it
    was. *)
Theorem genMovesFromTargets_one_per_bit
        (ml : list Move) (origin targets : Z) (b : Board) :
  is64 targets ->
  genMovesFromTargets ml origin targets b
  = Done (ml ++ map (fun t => mkMove origin t Nothing) (bitsOf targets)) b []
  /\ (forall t, In t (bitsOf targets)
                <-> 0 <= t < 64 /\ Z.testbit targets t = true)
  /\ NoDup (bitsOf targets)
  /\ genMovesFromTargets ml origin 0 b = Done ml b [].
Proof.
  intros Ht. split; [apply genMovesFromTargets_run; exact Ht |].
  split; [intros t; apply bitsOf_In |].
  split; [apply bitsOf_NoDup |].
  rewrite genMovesFromTargets_run by (unfold is64; rewrite pow64; lia).
  unfold movesTo. rewrite bitsOf_zero. apply f_equal3; try reflexivity.
  apply app_nil_r.
Qed.

Lemma genMovesFromTargets_one_per_bit_witness :
  genMovesFromTargets [mkMove 1 2 Nothing] 4 0x28 startBoard
  = Done ([mkMove 1 2 Nothing]
          ++ map (fun t => mkMove 4 t Nothing) (bitsOf 0x28)) startBoard []
  /\ (forall t, In t (bitsOf 0x28) <-> 0 <= t < 64 /\ Z.testbit 0x28 t = true)
  /\ NoDup (bitsOf 0x28)
  /\ genMovesFromTargets [mkMove 1 2 Nothing] 4 0 startBoard
     = Done [mkMove 1 2 Nothing] startBoard [].
Proof.
  apply (genMovesFromTargets_one_per_bit [mkMove 1 2 Nothing] 4 0x28 startBoard).
  unfold is64. rewrite pow64. lia.
Defined.

(** X2.  [pawnPushBitboards] leaves the board alone.  A square is a
    single-push target exactly when it is empty and an own pawn stands one
    rank behind it; it is a double-push target exactly when it is empty, on
    the fourth rank of the side to move, and the square one rank behind it
    is a single-push target. *)
Theorem pawnPushBitboards_bits (b : Board) (t : Z) :
  0 <= t < 64 ->
  exists targets doubleTargets,
    pawnPushBitboards b = Done (targets, doubleTargets) b [] /\
    Z.testbit targets t
    = Z.testbit (pawns (ours b)) (t - 8 * forward b) && emptyAt b t /\
    Z.testbit doubleTargets t
    = Z.testbit targets (t - 8 * forward b)
      && (rankOf t =? doubleRank b) && emptyAt b t.
Proof.
  intros Ht. exists (fst (pushBoards b)), (snd (pushBoards b)).
  split.
  - rewrite <- surjective_pairing. apply pawnPushBitboards_pure.
  - split; [apply pushBoards_fst_bit | apply pushBoards_snd_bit]; exact Ht.
Qed.

Lemma pawnPushBitboards_bits_witness :
  exists targets doubleTargets,
    pawnPushBitboards startBoard = Done (targets, doubleTargets) startBoard [] /\
    Z.testbit targets 28
    = Z.testbit (pawns (ours startBoard)) (28 - 8 * forward startBoard)
      && emptyAt startBoard 28 /\
    Z.testbit doubleTargets 28
    = Z.testbit targets (28 - 8 * forward startBoard)
      && (rankOf 28 =? doubleRank startBoard) && emptyAt startBoard 28.
Proof. apply (pawnPushBitboards_bits startBoard 28). lia. Defined.

(** X3.  [pawnPushes] leaves the board alone and appends a move from [p] to
    [t] exactly when an own pawn stands on [p] and either [t] is the empty
    square one rank ahead, or [p] is on the pawn's start rank and [t] is
    the empty square two ranks ahead with the square between also empty. *)
Theorem pawnPushes_rule (b : Board) :
  boardWords b ->
  exists ml,
    pawnPushes [] b = Done ml b [] /\
    forall p t,
      (exists m, In m ml /\ mfrom m = p /\ mto m = t) <-> pushRule b p t.
Proof.
  intros Hw. exists (pushList b).
  pose proof (pawnPushes_run [] b) as Hrun. rewrite app_nil_l in Hrun.
  split; [exact Hrun |]. intros p t. apply pushList_In. exact Hw.
Qed.

Lemma pawnPushes_rule_witness :
  exists ml,
    pawnPushes [] enPassantBoard = Done ml enPassantBoard [] /\
    forall p t,
      (exists m, In m ml /\ mfrom m = p /\ mto m = t)
      <-> pushRule enPassantBoard p t.
Proof.
  apply (pawnPushes_rule enPassantBoard).
  exact (wf_words _ enPassantBoard_wellFormed).
Defined.

(** X4.  [knightMoves] leaves the board alone, keeps the list it is given
    and appends a list that does not depend on it: a move is appended
    exactly when it is a plain move from the square of an own knight to a
    square of that knight's mask that holds no own piece. *)
Theorem knightMoves_rule (T : Tables) (b : Board) :
  tablesSized T -> boardWords b ->
  exists extra,
    (forall ml, knightMoves T ml b = Done (ml ++ extra) b []) /\
    forall m,
      In m extra <->
      exists s t mask,
        Z.testbit (knights (ours b)) s = true /\
        index (knightMasks T) s b = Done mask b [] /\
        0 <= t < 64 /\ Z.testbit mask t = true /\
        Z.testbit (all (ours b)) t = false /\
        m = mkMove s t Nothing.
Proof.
  intros HT Hw. exists (pieceMoves (knights (ours b)) (knightTargets T b)).
  split; [intros ml; apply knightMoves_form; assumption |].
  destruct (sized_facts T HT) as [[Hk _] _].
  pose proof (ours_words b Hw) as (_ & _ & Hn & _).
  intros m. rewrite pieceMoves_In. split.
  - intros [s [t [Hs [Hp [Ht [Hb E]]]]]]. unfold knightTargets in Hb.
    apply (reach_bit _ _ t Ht) in Hb.
    exists s, t, (maskAt (knightMasks T) s).
    pose proof (index_maskAt (knightMasks T) s b Hk Hs). tauto.
  - intros [s [t [mask [Hp [Hi [Ht [Hb [Ho E]]]]]]]].
    pose proof (is64_testbit _ _ Hn Hp) as Hs.
    pose proof (index_maskAt (knightMasks T) s b Hk Hs) as Hm.
    unfold pureRun in Hm. rewrite Hm in Hi. inversion Hi. subst mask.
    exists s, t. unfold knightTargets. rewrite (reach_bit _ _ t Ht). tauto.
Qed.

Lemma knightMoves_rule_witness :
  exists extra,
    (forall ml, knightMoves Rules.tables ml startBoard
                = Done (ml ++ extra) startBoard []) /\
    forall m,
      In m extra <->
      exists s t mask,
        Z.testbit (knights (ours startBoard)) s = true /\
        index (knightMasks Rules.tables) s startBoard
        = Done mask startBoard [] /\
        0 <= t < 64 /\ Z.testbit mask t = true /\
        Z.testbit (all (ours startBoard)) t = false /\
        m = mkMove s t Nothing.
Proof.
  apply (knightMoves_rule Rules.tables startBoard).
  - exact rules_tables_sized.
  - exact (wf_words _ startBoard_wellFormed).
Defined.

(** X5.  [rookMoves] leaves the board alone, keeps the list it is given and
    appends a plain move from [s] to [t] exactly when an own rook stands on
    [s], the rook-family lookup for [s] on the occupancy of both sides
    returns a bitboard with [t] set, and [t] holds no own piece. *)
Theorem rookMoves_rule (T : Tables) (b : Board) :
  tablesSized T -> boardWords b ->
  exists extra,
    (forall ml, rookMoves T ml b = Done (ml ++ extra) b []) /\
    forall m,
      In m extra <->
      exists s t reach,
        Z.testbit (rooks (ours b)) s = true /\
        rookLookup T s (Z.lor (all (white b)) (all (black b))) b
        = Done reach b [] /\
        0 <= t < 64 /\ Z.testbit reach t = true /\
        Z.testbit (all (ours b)) t = false /\
        m = mkMove s t Nothing.
Proof.
  intros HT Hw. exists (pieceMoves (rooks (ours b)) (rookTargets T b)).
  split; [intros ml; apply rookMoves_form; assumption |].
  pose proof (ours_words b Hw) as (_ & _ & _ & Hr & _).
  fold (occupied b).
  intros m. rewrite pieceMoves_In. split.
  - intros [s [t [Hs [Hp [Ht [Hb E]]]]]]. unfold rookTargets in Hb.
    apply (reach_bit _ _ t Ht) in Hb.
    exists s, t, (valueOf (rookLookup T s (occupied b)) b 0).
    pose proof (rookLookup_value T HT s b Hs). tauto.
  - intros [s [t [reach [Hp [Hi [Ht [Hb [Ho E]]]]]]]].
    pose proof (is64_testbit _ _ Hr Hp) as Hs.
    apply (pureRun_value _ b reach 0
             (rookLookup_returns T HT s (occupied b) b Hs)) in Hi.
    subst reach.
    exists s, t. unfold rookTargets. rewrite (reach_bit _ _ t Ht). tauto.
Qed.

Lemma rookMoves_rule_witness :
  exists extra,
    (forall ml, rookMoves Rules.tables ml rookA8Board
                = Done (ml ++ extra) rookA8Board []) /\
    forall m,
      In m extra <->
      exists s t reach,
        Z.testbit (rooks (ours rookA8Board)) s = true /\
        rookLookup Rules.tables s
          (Z.lor (all (white rookA8Board)) (all (black rookA8Board)))
          rookA8Board
        = Done reach rookA8Board [] /\
        0 <= t < 64 /\ Z.testbit reach t = true /\
        Z.testbit (all (ours rookA8Board)) t = false /\
        m = mkMove s t Nothing.
Proof.
  apply (rookMoves_rule Rules.tables rookA8Board).
  - exact rules_tables_sized.
  - exact (wf_words _ rookA8Board_wellFormed).
Defined.

(** X6.  [bishopMoves] leaves the board alone, keeps the list it is given
    and appends a plain move from [s] to [t] exactly when an own bishop
    stands on [s], the bishop-family lookup for [s] on the occupancy of both
    sides returns a bitboard with [t] set, and [t] holds no own piece. *)
Theorem bishopMoves_rule (T : Tables) (b : Board) :
  tablesSized T -> boardWords b ->
  exists extra,
    (forall ml, bishopMoves T ml b = Done (ml ++ extra) b []) /\
    forall m,
      In m extra <->
      exists s t reach,
        Z.testbit (bishops (ours b)) s = true /\
        bishopLookup T s (Z.lor (all (white b)) (all (black b))) b
        = Done reach b [] /\
        0 <= t < 64 /\ Z.testbit reach t = true /\
        Z.testbit (all (ours b)) t = false /\
        m = mkMove s t Nothing.
Proof.
  intros HT Hw. exists (pieceMoves (bishops (ours b)) (bishopTargets T b)).
  split; [intros ml; apply bishopMoves_form; assumption |].
  pose proof (ours_words b Hw) as (_ & Hr & _).
  fold (occupied b).
  intros m. rewrite pieceMoves_In. split.
  - intros [s [t [Hs [Hp [Ht [Hb E]]]]]]. unfold bishopTargets in Hb.
    apply (reach_bit _ _ t Ht) in Hb.
    exists s, t, (valueOf (bishopLookup T s (occupied b)) b 0).
    pose proof (bishopLookup_value T HT s b Hs). tauto.
  - intros [s [t [reach [Hp [Hi [Ht [Hb [Ho E]]]]]]]].
    pose proof (is64_testbit _ _ Hr Hp) as Hs.
    apply (pureRun_value _ b reach 0
             (bishopLookup_returns T HT s (occupied b) b Hs)) in Hi.
    subst reach.
    exists s, t. unfold bishopTargets. rewrite (reach_bit _ _ t Ht). tauto.
Qed.

Lemma bishopMoves_rule_witness :
  exists extra,
    (forall ml, bishopMoves Rules.tables ml enPassantBoard
                = Done (ml ++ extra) enPassantBoard []) /\
    forall m,
      In m extra <->
      exists s t reach,
        Z.testbit (bishops (ours enPassantBoard)) s = true /\
        bishopLookup Rules.tables s
          (Z.lor (all (white enPassantBoard)) (all (black enPassantBoard)))
          enPassantBoard
        = Done reach enPassantBoard [] /\
        0 <= t < 64 /\ Z.testbit reach t = true /\
        Z.testbit (all (ours enPassantBoard)) t = false /\
        m = mkMove s t Nothing.
Proof.
  apply (bishopMoves_rule Rules.tables enPassantBoard).
  - exact rules_tables_sized.
  - exact (wf_words _ enPassantBoard_wellFormed).
Defined.





(** X9.  With a king for the side to move, [kingMoves] appends to the list
    it is given the castle moves and then the plain king moves, and nothing
    else.  [anyUnderDirectAttack] returns on the squares probed for either
    castle.  The king-side castle move, from the king's square to the square
    two files up, is appended exactly when the mover's king-side right is
    set and none of the four king-side squares probed is reported attacked;
    the queen-side castle move, to the square two files down, follows
    exactly when the queen-side right is set and none of the five queen-side
    squares probed is reported attacked.  Which squares between king and
    rook are occupied plays no part.  The plain moves that follow hold no
    move twice; a move to [t] is among them exactly when [t] is in the king
    mask of the king's square, holds no own piece, and the oracle, run on
    the board with the king lifted, does not report [t] attacked.  So a
    castle move is appended without its right, or with a probed square
    reported attacked, only where the same move is a plain king move. *)
Theorem kingMoves_castles_rule (T : Tables) (ml : list Move) (b : Board) :
  tablesSized T -> boardWords b -> kings (sideOf (wtomove b) b) <> 0 ->
  exists (hitKingside hitQueenside : bool) (steps : list Move),
    anyUnderDirectAttack T (wtomove b) (kingsideProbes b) b
    = Done hitKingside b [] /\
    anyUnderDirectAttack T (wtomove b) (queensideProbes b) b
    = Done hitQueenside b [] /\
    kingMoves T ml b
    = Done (ml
            ++ ((if kingsideRight b && negb hitKingside
                 then [mkMove (kingSquare b) (wrap8 (kingSquare b + 2)) Nothing]
                 else [])
                ++ (if queensideRight b && negb hitQueenside
                    then [mkMove (kingSquare b) (wrap8 (kingSquare b - 2))
                                 Nothing]
                    else []))
            ++ steps)
           (kingFinal b) (kingStores b) /\
    NoDup steps /\
    forall m,
      In m steps <->
      exists t mask,
        index (kingMasks T) (kingSquare b) b = Done mask b [] /\
        0 <= t < 64 /\ Z.testbit mask t = true /\
        Z.testbit (all (ours b)) t = false /\
        underDirectAttack T (wtomove b) t (kingLifted b)
        = Done false (kingLifted b) [] /\
        m = mkMove (kingSquare b) t Nothing.
Proof.
  intros HT Hw Hk. destruct (probes_in_range b) as [HpK HpQ].
  destruct (castleAnswer_eq T b (kingsideRight b) (kingsideProbes b) HT HpK)
    as [HrunK HK].
  destruct (castleAnswer_eq T b (queensideRight b) (queensideProbes b) HT HpQ)
    as [HrunQ HQ].
  exists (existsb (fun v => valueOf (underDirectAttack T (wtomove b) v) b false)
                  (kingsideProbes b)),
    (existsb (fun v => valueOf (underDirectAttack T (wtomove b) v) b false)
             (queensideProbes b)),
    (kingSteps T b).
  split; [exact HrunK |]. split; [exact HrunQ |].
  split.
  { rewrite <- HK, <- HQ. apply (kingMoves_form T HT ml b Hw Hk). }
  split; [apply kingSteps_NoDup |].
  intros m. apply (kingSteps_In T b m HT Hw Hk).
Qed.

Lemma kingMoves_castles_rule_witness :
  exists (hitKingside hitQueenside : bool) (steps : list Move),
    anyUnderDirectAttack Rules.tables (wtomove rookA8Board)
      (kingsideProbes rookA8Board) rookA8Board
    = Done hitKingside rookA8Board [] /\
    anyUnderDirectAttack Rules.tables (wtomove rookA8Board)
      (queensideProbes rookA8Board) rookA8Board
    = Done hitQueenside rookA8Board [] /\
    kingMoves Rules.tables [] rookA8Board
    = Done ([]
            ++ ((if kingsideRight rookA8Board && negb hitKingside
                 then [mkMove (kingSquare rookA8Board)
                              (wrap8 (kingSquare rookA8Board + 2)) Nothing]
                 else [])
                ++ (if queensideRight rookA8Board && negb hitQueenside
                    then [mkMove (kingSquare rookA8Board)
                                 (wrap8 (kingSquare rookA8Board - 2)) Nothing]
                    else []))
            ++ steps)
           (kingFinal rookA8Board) (kingStores rookA8Board) /\
    NoDup steps /\
    forall m,
      In m steps <->
      exists t mask,
        index (kingMasks Rules.tables) (kingSquare rookA8Board) rookA8Board
        = Done mask rookA8Board [] /\
        0 <= t < 64 /\ Z.testbit mask t = true /\
        Z.testbit (all (ours rookA8Board)) t = false /\
        underDirectAttack Rules.tables (wtomove rookA8Board) t
          (kingLifted rookA8Board)
        = Done false (kingLifted rookA8Board) [] /\
        m = mkMove (kingSquare rookA8Board) t Nothing.
Proof.
  apply (kingMoves_castles_rule Rules.tables [] rookA8Board).
  - exact rules_tables_sized.
  - exact (wf_words _ rookA8Board_wellFormed).
  - cbn. lia.
Defined.

(** X10.  For squares in 0..63, [anyUnderDirectAttack] returns, leaves the
    board alone, and answers [true] exactly when [underDirectAttack] answers
    [true] for one of the squares; for no square at all it answers
    [false]. *)
Theorem anyUnderDirectAttack_some (T : Tables) (byBlack : bool)
        (squares : list Z) (b : Board) :
  tablesSized T -> Forall (fun v => 0 <= v < 64) squares ->
  (exists hit,
      anyUnderDirectAttack T byBlack squares b = Done hit b [] /\
      (hit = true <->
       exists v, In v squares /\
                 underDirectAttack T byBlack v b = Done true b [])) /\
  anyUnderDirectAttack T byBlack [] b = Done false b [].
Proof.
  intros HT Hs. split; [| reflexivity].
  exists (existsb (fun v => valueOf (underDirectAttack T byBlack v) b false)
                  squares).
  split; [apply (anyUnderDirectAttack_value T HT byBlack squares b Hs) |].
  rewrite existsb_exists. rewrite Forall_forall in Hs.
  split; intros [v [Hin Hv]]; exists v; (split; [exact Hin |]).
  - apply (pureRun_value _ b true false
             (underDirectAttack_returns T HT byBlack v b (Hs v Hin))).
    symmetry. exact Hv.
  - apply (pureRun_value _ b true false
             (underDirectAttack_returns T HT byBlack v b (Hs v Hin))) in Hv.
    symmetry. exact Hv.
Qed.

Lemma anyUnderDirectAttack_some_witness :
  (exists hit,
      anyUnderDirectAttack Rules.tables true [0; 1; 2; 3; 4] rookA8Board
      = Done hit rookA8Board [] /\
      (hit = true <->
       exists v, In v [0; 1; 2; 3; 4] /\
                 underDirectAttack Rules.tables true v rookA8Board
                 = Done true rookA8Board [])) /\
  anyUnderDirectAttack Rules.tables true [] rookA8Board
  = Done false rookA8Board [].
Proof.
  apply (anyUnderDirectAttack_some Rules.tables true [0; 1; 2; 3; 4]
           rookA8Board).
  - exact rules_tables_sized.
  - repeat constructor; lia.
Defined.

(** X11.  When the attacking side has no knight, bishop, rook, queen, king
    or pawn, [underDirectAttack] answers [false] for every square 0..63,
    whatever the tables hold and whatever the aggregate bitboards say. *)
Theorem underDirectAttack_no_attackers (T : Tables) (byBlack : bool)
        (origin : Z) (b : Board) :
  tablesSized T -> 0 <= origin < 64 ->
  knights (if byBlack then black b else white b) = 0 ->
  bishops (if byBlack then black b else white b) = 0 ->
  rooks (if byBlack then black b else white b) = 0 ->
  queens (if byBlack then black b else white b) = 0 ->
  kings (if byBlack then black b else white b) = 0 ->
  pawns (if byBlack then black b else white b) = 0 ->
  underDirectAttack T byBlack origin b = Done false b [].
Proof.
  intros HT. apply (underDirectAttack_quiet T HT byBlack origin b).
Qed.

Lemma underDirectAttack_no_attackers_witness :
  underDirectAttack Rules.tables true 12 whiteOnlyBoard
  = Done false whiteOnlyBoard [].
Proof.
  apply (underDirectAttack_no_attackers Rules.tables true 12 whiteOnlyBoard);
    [exact rules_tables_sized | lia | reflexivity ..].
Defined.

(** X12.  For a square outside 0..63, [underDirectAttack] panics on its
    first table read, and so does [anyUnderDirectAttack] when such a square
    comes first. *)
Theorem underDirectAttack_outside_panics (T : Tables) (byBlack : bool)
        (origin : Z) (rest : list Z) (b : Board) :
  tablesSized T -> ~ 0 <= origin < 64 ->
  underDirectAttack T byBlack origin b = Panic /\
  anyUnderDirectAttack T byBlack (origin :: rest) b = Panic.
Proof.
  intros HT Ho.
  pose proof (underDirectAttack_outside T HT byBlack origin b Ho) as Hp.
  split; [exact Hp |].
  cbn [anyUnderDirectAttack]. apply bind_panic. exact Hp.
Qed.

Lemma underDirectAttack_outside_panics_witness :
  underDirectAttack Rules.tables false 64 startBoard = Panic /\
  anyUnderDirectAttack Rules.tables false [64; 3] startBoard = Panic.
Proof.
  apply (underDirectAttack_outside_panics Rules.tables false 64 [3] startBoard).
  - exact rules_tables_sized.
  - lia.
Defined.

(** X13.  On a well-formed board the list [GenerateLegalMoves] returns is
    the concatenation, in the order of the calls, of what each of the seven
    generators returns when run on its own from the empty list: no
    generator depends on what the ones before it appended. *)
Theorem GenerateLegalMoves_concat (T : Tables) (b : Board) :
  tablesSized T -> wellFormed b ->
  exists pushes captures knightList kingList rookList bishopList queens,
    pawnPushes [] b = Done pushes b [] /\
    pawnCaptures [] b = Done captures b [] /\
    knightMoves T [] b = Done knightList b [] /\
    kingMoves T [] b = Done kingList b (kingStores b) /\
    rookMoves T [] b = Done rookList b [] /\
    bishopMoves T [] b = Done bishopList b [] /\
    queenMoves T [] b = Done queens b [] /\
    GenerateLegalMoves T b
    = Done (pushes ++ captures ++ knightList ++ kingList ++ rookList
            ++ bishopList ++ queens)
           b (kingStores b).
Proof.
  intros HT Hwf. pose proof (wf_words b Hwf) as Hw.
  pose proof (wellFormed_king b Hwf) as Hk.
  exists (pushList b), (captureList b),
    (pieceMoves (knights (ours b)) (knightTargets T b)),
    (castleMoves b
       (castleAnswer T b (kingsideRight b) (kingsideProbes b))
       (castleAnswer T b (queensideRight b) (queensideProbes b))
     ++ kingSteps T b),
    (pieceMoves (rooks (ours b)) (rookTargets T b)),
    (pieceMoves (bishops (ours b)) (bishopTargets T b)),
    (queenList T b).
  pose proof (pawnPushes_run [] b) as H1.
  pose proof (pawnCaptures_run [] b) as H2.
  pose proof (knightMoves_form T HT [] b Hw) as H3.
  pose proof (kingMoves_form T HT [] b Hw Hk) as H4.
  pose proof (rookMoves_form T HT [] b Hw) as H5.
  pose proof (bishopMoves_form T HT [] b Hw) as H6.
  pose proof (queenMoves_form T HT [] b Hw) as H7.
  rewrite (kingFinal_wellFormed b Hwf) in H4.
  rewrite app_nil_l in H1, H2, H3, H4, H5, H6, H7.
  repeat (split; [assumption |]).
  apply GenerateLegalMoves_form; assumption.
Qed.

Lemma GenerateLegalMoves_concat_witness :
  exists pushes captures knightList kingList rookList bishopList queens,
    pawnPushes [] enPassantBoard = Done pushes enPassantBoard [] /\
    pawnCaptures [] enPassantBoard = Done captures enPassantBoard [] /\
    knightMoves Rules.tables [] enPassantBoard
    = Done knightList enPassantBoard [] /\
    kingMoves Rules.tables [] enPassantBoard
    = Done kingList enPassantBoard (kingStores enPassantBoard) /\
    rookMoves Rules.tables [] enPassantBoard = Done rookList enPassantBoard [] /\
    bishopMoves Rules.tables [] enPassantBoard
    = Done bishopList enPassantBoard [] /\
    queenMoves Rules.tables [] enPassantBoard = Done queens enPassantBoard [] /\
    GenerateLegalMoves Rules.tables enPassantBoard
    = Done (pushes ++ captures ++ knightList ++ kingList ++ rookList
            ++ bishopList ++ queens)
           enPassantBoard (kingStores enPassantBoard).
Proof.
  apply (GenerateLegalMoves_concat Rules.tables enPassantBoard).
  - exact rules_tables_sized.
  - exact enPassantBoard_wellFormed.
Defined.



(** X15.  With a king for the side to move, [kingMoves] leaves every field
    of the board as it was except the mover's aggregate, which comes back
    with the king square's bit set: on a board whose aggregate lacks that
    bit the call changes the board. *)
Theorem kingMoves_board_after (T : Tables) (ml : list Move) (b : Board) :
  tablesSized T -> boardWords b -> kings (sideOf (wtomove b) b) <> 0 ->
  exists ml',
    kingMoves T ml b
    = Done ml'
           (withSide (wtomove b)
              (setAll (sideOf (wtomove b) b)
                 (Z.lor (all (sideOf (wtomove b) b)) (bit (kingSquare b))))
              b)
           (kingStores b).
Proof.
  intros HT Hw Hk. destruct (kingMoves_run T HT ml b Hw Hk) as [ml' Hrun].
  exists ml'. rewrite kingFinal_eq in Hrun.
  rewrite lift_then_set in Hrun; [exact Hrun | | ].
  - destruct Hw as [Hwh [Hbl _]]. destruct (wtomove b); [apply Hwh | apply Hbl].
  - apply kingSquare_range; assumption.
Qed.

Lemma kingMoves_board_after_witness :
  exists ml',
    kingMoves Rules.tables [] twoKingsBoard
    = Done ml'
           (withSide (wtomove twoKingsBoard)
              (setAll (sideOf (wtomove twoKingsBoard) twoKingsBoard)
                 (Z.lor (all (sideOf (wtomove twoKingsBoard) twoKingsBoard))
                        (bit (kingSquare twoKingsBoard))))
              twoKingsBoard)
           (kingStores twoKingsBoard).
Proof.
  apply (kingMoves_board_after Rules.tables [] twoKingsBoard).
  - exact rules_tables_sized.
  - unfold boardWords, sideWords, is64; cbn; rewrite ?pow64; lia.
  - cbn. lia.
Defined.

(** X16.  Pawn probes that leave the board find nothing: asked about white
    attackers on one of the squares 0..6, or about black attackers on one
    of the squares 57..63, [underDirectAttack] answers [false] whenever the
    attacking side has no knight, bishop, rook, queen or king, wherever its
    pawns stand.  The byte differences [origin-7] and [origin-9] wrap
    around to shift counts above 63, which yield no bit. *)
Theorem underDirectAttack_pawn_probe_off_board (T : Tables) (byBlack : bool)
        (origin : Z) (b : Board) :
  tablesSized T ->
  (byBlack = false /\ 0 <= origin <= 6) \/
  (byBlack = true /\ 57 <= origin < 64) ->
  knights (if byBlack then black b else white b) = 0 ->
  bishops (if byBlack then black b else white b) = 0 ->
  rooks (if byBlack then black b else white b) = 0 ->
  queens (if byBlack then black b else white b) = 0 ->
  kings (if byBlack then black b else white b) = 0 ->
  underDirectAttack T byBlack origin b = Done false b [].
Proof.
  intros HT. apply (underDirectAttack_edge_rank T HT byBlack origin b).
Qed.

Lemma underDirectAttack_pawn_probe_off_board_witness :
  underDirectAttack Rules.tables true 60 blackPawnsBoard
  = Done false blackPawnsBoard [].
Proof.
  apply (underDirectAttack_pawn_probe_off_board Rules.tables true 60
           blackPawnsBoard);
    [exact rules_tables_sized | right; split; [reflexivity | lia]
    | reflexivity ..].
Defined.
